(** * Logo Similarity Analyzer: a shallow embedding and its properties

    The development follows the Python sources
    [config.py], [utils/gcs.py], [utils/spreadsheet.py] and
    [logo_similarity.py].  Python strings are [string]s, integers are [Z]
    (or [nat] where the source only counts), dictionaries that are sent over
    the wire are association lists, and every call that leaves the process
    (HTTP, object storage, the clock, the spreadsheet) is an explicit event
    appended to a trace, answered by an environment that the theorems
    quantify over. *)

From Stdlib Require Import String Ascii List ZArith Lia Bool Arith DecimalString.
From Equations Require Import Equations.
Import ListNotations.

Local Set Warnings "-register-all".

Local Open Scope string_scope.
Local Open Scope list_scope.

(** ** Python string primitives used by the sources *)

Module PyStr.

(** [str.lower] on one character (ASCII letters only). *)
Definition lower_ascii (c : ascii) : ascii :=
  let n := nat_of_ascii c in
  if (65 <=? n)%nat && (n <=? 90)%nat then ascii_of_nat (n + 32) else c.

(** [s.lower()] *)
Fixpoint lower (s : string) : string :=
  match s with
  | EmptyString => EmptyString
  | String c s' => String (lower_ascii c) (lower s')
  end.

(** [s.startswith(p)] *)
Fixpoint startswith (s p : string) : bool :=
  match p, s with
  | EmptyString, _ => true
  | String _ _, EmptyString => false
  | String b p', String a s' => Ascii.eqb a b && startswith s' p'
  end.

(** [s.endswith(suf)]: some tail of [s] is [suf]. *)
Fixpoint endswith (s suf : string) : bool :=
  String.eqb s suf ||
  match s with
  | EmptyString => false
  | String _ s' => endswith s' suf
  end.

(** [s.endswith(t)] for a tuple [t] of suffixes. *)
Definition endswith_any (s : string) (t : list string) : bool :=
  existsb (endswith s) t.

(** [s.split(sep)] for a one-character separator: never empty. *)
Fixpoint split (sep : ascii) (s : string) : list string :=
  match s with
  | EmptyString => [EmptyString]
  | String c s' =>
      if Ascii.eqb c sep then EmptyString :: split sep s'
      else match split sep s' with
           | h :: t => String c h :: t
           | [] => [String c EmptyString]
           end
  end.

(** [s.rfind(c)]: index of the last occurrence, [-1] when there is none. *)
Fixpoint rfind (c : ascii) (s : string) : Z :=
  match s with
  | EmptyString => (-1)%Z
  | String a s' =>
      let r := rfind c s' in
      if (0 <=? r)%Z then (r + 1)%Z
      else if Ascii.eqb a c then 0%Z else (-1)%Z
  end.

(** [s[i:]] for [i >= 0]. *)
Fixpoint drop (i : nat) (s : string) : string :=
  match i, s with
  | O, _ => s
  | S _, EmptyString => EmptyString
  | S i', String _ s' => drop i' s'
  end.

(** [s.strip()]: ASCII whitespace removed at both ends. *)
Definition is_space (c : ascii) : bool :=
  let n := nat_of_ascii c in
  ((9 <=? n)%nat && (n <=? 13)%nat) || ((28 <=? n)%nat && (n <=? 32)%nat).

Fixpoint lstrip (s : string) : string :=
  match s with
  | EmptyString => EmptyString
  | String c s' => if is_space c then lstrip s' else s
  end.

Fixpoint rstrip (s : string) : string :=
  match s with
  | EmptyString => EmptyString
  | String c s' =>
      match rstrip s' with
      | EmptyString => if is_space c then EmptyString else String c EmptyString
      | r => String c r
      end
  end.

Definition strip (s : string) : string := rstrip (lstrip s).

(** Characters of a string, for the statements below. *)
Fixpoint occurs (c : ascii) (s : string) : bool :=
  match s with
  | EmptyString => false
  | String a s' => Ascii.eqb a c || occurs c s'
  end.

End PyStr.

(** ** [os.path] (posixpath) *)

Module os_path.

Definition sep : ascii := "/"%char.

(** [posixpath.basename]: [i = p.rfind('/') + 1; return p[i:]]. *)
Definition basename (p : string) : string :=
  PyStr.drop (Z.to_nat (PyStr.rfind sep p + 1)) p.

(** [posixpath.join(a, b)] with one extra component. *)
Definition join (a b : string) : string :=
  if PyStr.startswith b (String sep EmptyString) then b
  else if String.eqb a EmptyString || PyStr.endswith a (String sep EmptyString)
       then a ++ b
       else a ++ String sep EmptyString ++ b.

End os_path.

(** ** [config.py] *)

Module config.

Definition PROJECT_NUMBER : string := "your-project-number".
Definition LOCATION : string := "us-central1".
Definition BATCH_SIZE : nat := 100.
Definition MAX_RETRIES : Z := 3.
Definition TIMEOUT : Z := 300.
Definition SUPPORTED_FORMATS : list string := [".jpg"; ".jpeg"; ".png"].
Definition SPREADSHEET_RANGE : string := "Sheet1!A1".
Definition SPREADSHEET_COLUMNS : list string :=
  ["Query Image"; "Similar Image"; "Similarity Score"].

End config.

(** ** Values, exceptions and the outside world *)

(** JSON-like Python values: request bodies and parsed responses.  A float
    is kept by its printed form. *)
Inductive json : Type :=
| JNull
| JBool (b : bool)
| JInt (z : Z)
| JFloat (repr : string)
| JStr (s : string)
| JArr (items : list json)
| JObj (fields : list (string * json)).

(** A cell of a result row: an image reference (a string) or a similarity
    score (a float, kept by its printed form). *)
Inductive cell : Type :=
| CStr (s : string)
| CFloat (repr : string).

(** The subclasses of [requests.exceptions.RequestException] that the
    library raises: all of them are caught by the same handler. *)
Inductive request_exception : Type :=
| ConnectionError (msg : string)
| Timeout
| HTTPError (status : Z)
| JSONDecodeError
| TooManyRedirects.

(** Python exceptions that can travel through the driver. *)
Inductive exception : Type :=
| RequestException (e : request_exception)
| UnboundLocalError (var : string)
| KeyError (key : string)
| TypeError
| AttributeError (attr : string)
| IndexError
| ValueError (msg : string)
| CalledProcessError
| StorageError (msg : string)
| SheetsError (msg : string)
| TokenFailure
    (* Exception(f'Failed to get access token: {e}') *)
| RequestFailed (retries : Z) (last : request_exception).
    (* Exception(f"Request failed after {MAX_RETRIES} retries: {e}") *)

Inductive result (A : Type) : Type :=
| Ok (a : A)
| Raise (e : exception).
Arguments Ok {A} a.
Arguments Raise {A} e.

(** What [requests.post]/[requests.get] hand back: a response object whose
    two methods the driver calls.  [raise_for_status] is [Some e] when the
    library raises [HTTPError] for the status, [resp_json] is what
    [response.json()] does. *)
Record Response : Type := {
  raise_for_status : option request_exception;
  resp_json : result json
}.

Inductive http_reply : Type :=
| Responds (r : Response)
| Throws (e : exception).

(** A calendar date as [datetime.now()] reports it. *)
Record date : Type := { year : nat; month : nat; day : nat }.

(** A directory as [os.walk] sees it. *)
Inductive dir : Type :=
| Dir (subdirs : list (string * dir)) (files : list string).

(** Calls that leave the process, in the order they are issued. *)
Inductive event : Type :=
| EvToken
| EvHttp (method url : string) (headers : list (string * string))
         (body : option json) (timeout : Z)
| EvUpload (bucket src dest : string) (stored : bool)
| EvSheetUpdate (spreadsheet_id range_name value_input_option : string)
                (values : list (list cell)).

Inductive level : Type := INFO | WARNING | ERROR.

(** A log line: plain text, or text followed by a formatted exception. *)
Inductive message : Type :=
| Msg (text : string)
| MsgExc (text : string) (e : exception).

(** The world the script runs in.  The [_replies] fields are what the
    remote sides will answer to the next calls (index 0 is the next one);
    [clock] is what the next calls of [datetime.now()] return. *)
Record World : Type := {
  gcloud : result string;
  fs : string -> option dir;
  http_replies : nat -> http_reply;
  gcs_replies : nat -> option exception;
  sheets_replies : nat -> option exception;
  clock : nat -> date;
  trace : list event;
  log : list (level * message)
}.

Definition shift {A : Type} (f : nat -> A) : nat -> A := fun k => f (S k).

Definition emit (e : event) (w : World) : World :=
  {| gcloud := gcloud w; fs := fs w; http_replies := http_replies w;
     gcs_replies := gcs_replies w; sheets_replies := sheets_replies w;
     clock := clock w; trace := trace w ++ [e]; log := log w |}.

Definition write_log (l : level) (msg : message) (w : World) : World :=
  {| gcloud := gcloud w; fs := fs w; http_replies := http_replies w;
     gcs_replies := gcs_replies w; sheets_replies := sheets_replies w;
     clock := clock w; trace := trace w; log := log w ++ [(l, msg)] |}.

Definition next_http (w : World) : World :=
  {| gcloud := gcloud w; fs := fs w; http_replies := shift (http_replies w);
     gcs_replies := gcs_replies w; sheets_replies := sheets_replies w;
     clock := clock w; trace := trace w; log := log w |}.

Definition next_gcs (w : World) : World :=
  {| gcloud := gcloud w; fs := fs w; http_replies := http_replies w;
     gcs_replies := shift (gcs_replies w); sheets_replies := sheets_replies w;
     clock := clock w; trace := trace w; log := log w |}.

Definition next_sheets (w : World) : World :=
  {| gcloud := gcloud w; fs := fs w; http_replies := http_replies w;
     gcs_replies := gcs_replies w; sheets_replies := shift (sheets_replies w);
     clock := clock w; trace := trace w; log := log w |}.

Definition next_clock (w : World) : World :=
  {| gcloud := gcloud w; fs := fs w; http_replies := http_replies w;
     gcs_replies := gcs_replies w; sheets_replies := sheets_replies w;
     clock := shift (clock w); trace := trace w; log := log w |}.

(** ** The monad of the script: state and exceptions *)

Definition M (A : Type) : Type := World -> result A * World.

Definition ret {A : Type} (a : A) : M A := fun w => (Ok a, w).

Definition raise {A : Type} (e : exception) : M A := fun w => (Raise e, w).

Definition bind {A B : Type} (c : M A) (k : A -> M B) : M B :=
  fun w =>
    match c w with
    | (Ok a, w') => k a w'
    | (Raise e, w') => (Raise e, w')
    end.

Declare Scope py_scope.
Delimit Scope py_scope with py.
Notation "x <- c ;; k" := (bind c (fun x => k))
  (at level 61, c at next level, right associativity) : py_scope.
Notation "c ;; k" := (bind c (fun _ => k))
  (at level 61, right associativity) : py_scope.
Local Open Scope py_scope.

Definition lift {A : Type} (r : result A) : M A := fun w => (r, w).

Definition logger (l : level) (msg : message) : M unit :=
  fun w => (Ok tt, write_log l msg w).

(** [for x in xs: body(x)], collecting what the bodies return. *)
Fixpoint for_each {A B : Type} (xs : list A) (body : A -> M B) : M (list B) :=
  match xs with
  | [] => ret []
  | x :: xs' => b <- body x ;; bs <- for_each xs' body ;; ret (b :: bs)
  end.

(** [for x in xs: body(x)] for its effects only. *)
Fixpoint for_ {A : Type} (xs : list A) (body : A -> M unit) : M unit :=
  match xs with
  | [] => ret tt
  | x :: xs' => body x ;; for_ xs' body
  end.

(** ** Small pieces of the Python runtime *)

(** [str(n)] for an integer. *)
Definition str_of_Z (z : Z) : string := NilZero.string_of_int (Z.to_int z).

(** A non-negative number in decimal, zero-padded on the left to [width]
    characters ([%m], [%d], and [%Y] for four-digit years). *)
Fixpoint zeros (n : nat) : string :=
  match n with
  | O => EmptyString
  | S n' => String "0"%char (zeros n')
  end.

Definition zero_padded (width n : nat) : string :=
  let s := NilZero.string_of_uint (Nat.to_uint n) in
  (zeros (width - String.length s) ++ s)%string.

(** [d.strftime('%Y%m%d')] *)
Definition strftime_Ymd (d : date) : string :=
  (zero_padded 4 (year d) ++ zero_padded 2 (month d) ++ zero_padded 2 (day d))%string.

(** [datetime.now()] *)
Definition datetime_now : M date :=
  fun w => (Ok (clock w 0), next_clock w).

(** [range(start, stop, step)] for non-negative bounds: the loop the
    iterator runs, with [stop - start] steps of fuel (enough as soon as
    [step >= 1]). *)
Fixpoint range_loop (fuel i stop step : nat) : list nat :=
  match fuel with
  | O => []
  | S fuel' =>
      if (i <? stop)%nat then i :: range_loop fuel' (i + step) stop step
      else []
  end.

Definition range (start stop step : nat) : result (list nat) :=
  if (step =? 0)%nat then Raise (ValueError "range() arg 3 must not be zero")
  else Ok (range_loop (stop - start) start stop step).

(** [l[i:j]] for [0 <= i <= j]. *)
Definition slice {A : Type} (l : list A) (i j : nat) : list A :=
  firstn (j - i) (skipn i l).

(** [os.walk(top)], top-down, on the directory found at [top]. *)
Fixpoint walk (top : string) (d : dir)
  : list (string * list string * list string) :=
  match d with
  | Dir subdirs files =>
      (top, map fst subdirs, files) ::
      (fix descend (l : list (string * dir)) :=
         match l with
         | [] => []
         | (name, sub) :: l' =>
             walk (os_path.join top name) sub ++ descend l'
         end) subdirs
  end.

Definition os_walk (top : string) : M (list (string * list string * list string)) :=
  fun w =>
    match fs w top with
    | Some d => (Ok (walk top d), w)
    | None => (Ok [], w)
    end.

(** [d[key]] *)
Fixpoint lookup {V : Type} (key : string) (fields : list (string * V)) : option V :=
  match fields with
  | [] => None
  | (k, v) :: rest => if String.eqb k key then Some v else lookup key rest
  end.

Definition getitem (d : json) (key : string) : result json :=
  match d with
  | JObj fields =>
      match lookup key fields with
      | Some v => Ok v
      | None => Raise (KeyError key)
      end
  | _ => Raise TypeError
  end.

(** [v.split("/")] on a value that should be a string. *)
Definition split_slash (v : json) : result (list string) :=
  match v with
  | JStr s => Ok (PyStr.split os_path.sep s)
  | _ => Raise (AttributeError "split")
  end.

(** [l[-1]] *)
Definition last_item (l : list string) : result string :=
  match rev l with
  | x :: _ => Ok x
  | [] => Raise IndexError
  end.

(** ** [utils/auth.py] *)

Definition get_access_token : M string :=
  fun w =>
    match gcloud w with
    | Ok stdout => (Ok (PyStr.strip stdout), emit EvToken w)
    | Raise CalledProcessError => (Raise TokenFailure, emit EvToken w)
    | Raise e => (Raise e, emit EvToken w)
    end.

(** ** [utils/gcs.py] *)

Definition upload_to_gcs (bucket_name source_file_path destination_blob_name : string)
  : M string :=
  fun w =>
    match gcs_replies w 0 with
    | None =>
        (Ok ("gs://" ++ bucket_name ++ "/" ++ destination_blob_name)%string,
         emit (EvUpload bucket_name source_file_path destination_blob_name true)
              (next_gcs w))
    | Some e =>
        (Raise e,
         emit (EvUpload bucket_name source_file_path destination_blob_name false)
              (next_gcs w))
    end.

(** ** [utils/spreadsheet.py] *)

(** A result row: a Python dict, keys in insertion order. *)
Definition row : Type := list (string * cell).

Definition nan : cell := CFloat "nan".

(** [pd.DataFrame(results).columns] for a list of dicts: the keys in the
    order of their first appearance. *)
Definition add_keys (seen : list string) (r : row) : list string :=
  fold_left
    (fun acc k => if existsb (String.eqb k) acc then acc else acc ++ [k])
    (map fst r) seen.

Definition DataFrame_columns (results : list row) : list string :=
  fold_left add_keys results [].

(** [pd.DataFrame(results).values.tolist()]: one list per row, aligned on
    the columns, a missing key read as NaN. *)
Definition DataFrame_values (results : list row) : list (list cell) :=
  let columns := DataFrame_columns results in
  map (fun r =>
         map (fun c => match lookup c r with Some v => v | None => nan end)
             columns)
      results.

Definition save_to_spreadsheet (results : list row)
    (spreadsheet_id range_name : string) (credentials : string) : M unit :=
  let values := map CStr (DataFrame_columns results) :: DataFrame_values results in
  fun w =>
    let w' := emit (EvSheetUpdate spreadsheet_id range_name "RAW" values)
                   (next_sheets w) in
    match sheets_replies w 0 with
    | None => (Ok tt, w')
    | Some e => (Raise e, w')
    end.

(** ** [logo_similarity.py] *)

Record LogoSimilarityAnalyzer : Type := {
  project_number : string;
  location : string;
  base_url : string;
  token : string
}.

(** [LogoSimilarityAnalyzer.__init__] *)
Definition __init__ (project_number location : string) : M LogoSimilarityAnalyzer :=
  token <- get_access_token ;;
  ret {| project_number := project_number;
         location := location;
         base_url := "https://warehouse-visionai.googleapis.com/v1";
         token := token |}.

(** One exchange with the service: the request is recorded and the next
    reply of the world is consumed. *)
Definition send (method url : string) (headers : list (string * string))
                (body : option json) (timeout : Z) : M Response :=
  fun w =>
    let w' := emit (EvHttp method url headers body timeout) (next_http w) in
    match http_replies w 0 with
    | Responds r => (Ok r, w')
    | Throws e => (Raise e, w')
    end.

Definition requests_post (url : string) (headers : list (string * string))
                         (json : option json) (timeout : Z) : M Response :=
  send "POST" url headers json timeout.

Definition requests_get (url : string) (headers : list (string * string))
                        (timeout : Z) : M Response :=
  send "GET" url headers None timeout.

Definition request_headers (self : LogoSimilarityAnalyzer) : list (string * string) :=
  [("Authorization", ("Bearer " ++ token self)%string);
   ("Content-Type", "application/json; charset=utf-8")].

Definition request_url (self : LogoSimilarityAnalyzer) (endpoint : string) : string :=
  (base_url self ++ "/" ++ endpoint)%string.

(** The [try] block of [_make_request].  The local [response] is bound
    only on the two branches of the [if]/[elif]. *)
Definition try_block (self : LogoSimilarityAnalyzer) (method endpoint : string)
                     (data : option json) : M json :=
  let headers := request_headers self in
  let url := request_url self endpoint in
  response <-
    (if String.eqb method "POST" then
       r <- requests_post url headers data config.TIMEOUT ;; ret (Some r)
     else if String.eqb method "GET" then
       r <- requests_get url headers config.TIMEOUT ;; ret (Some r)
     else ret None) ;;
  match response with
  | None => raise (UnboundLocalError "response")
  | Some r =>
      match raise_for_status r with
      | Some e => raise (RequestException e)
      | None => lift (resp_json r)
      end
  end.

Definition retry_warning (retry_count : Z) : message :=
  Msg ("Request failed, retrying... (" ++ str_of_Z (retry_count + 1) ++ "/"
       ++ str_of_Z config.MAX_RETRIES ++ ")")%string.

(** How many more retries the handler will grant: the measure of
    [_make_request]. *)
Definition retries_left (retry_count : Z) : nat :=
  Z.to_nat (config.MAX_RETRIES - retry_count).

(** [_make_request]: the handler catches [RequestException] only, and the
    recursive call sits in the handler, outside the [try]. *)
Equations? _make_request (self : LogoSimilarityAnalyzer) (method endpoint : string)
    (data : option json) (retry_count : Z) (w : World)
  : result json * World
  by wf (retries_left retry_count) lt :=
  _make_request self method endpoint data retry_count w
    with try_block self method endpoint data w := {
    | (Raise (RequestException e), w1)
        with Z_lt_dec retry_count config.MAX_RETRIES := {
        | left _ :=
            _make_request self method endpoint data (retry_count + 1)
                          (write_log WARNING (retry_warning retry_count) w1)
        | right _ := (Raise (RequestFailed config.MAX_RETRIES e), w1) }
    | (r, w1) := (r, w1) }.
Proof. unfold retries_left, config.MAX_RETRIES in *. lia. Qed.

Definition corpus_settings : json :=
  JObj [("display_name", JStr "logo_similarity_corpus");
        ("description", JStr "Corpus for analyzing logo similarities");
        ("type", JStr "IMAGE");
        ("search_capability_setting",
         JObj [("search_capabilities", JObj [("type", JStr "EMBEDDING_SEARCH")])])].

Definition index_settings : json :=
  JObj [("display_name", JStr "logo_similarity_index");
        ("index_type", JStr "VISUAL_EMBEDDING")].

(** [f"projects/{self.project_number}/locations/{self.location}"] *)
Definition parent (self : LogoSimilarityAnalyzer) : string :=
  ("projects/" ++ project_number self ++ "/locations/" ++ location self)%string.

Definition create_corpus (self : LogoSimilarityAnalyzer) : M json :=
  let endpoint := (parent self ++ "/corpora")%string in
  _make_request self "POST" endpoint (Some corpus_settings) 0.

Definition create_index (self : LogoSimilarityAnalyzer) (corpus_id : string) : M json :=
  let endpoint := (parent self ++ "/corpora/" ++ corpus_id ++ "/indexes")%string in
  _make_request self "POST" endpoint (Some index_settings) 0.

Definition create_index_endpoint (self : LogoSimilarityAnalyzer)
                                 (display_name description : string) : M json :=
  let endpoint := (parent self ++ "/indexEndpoints")%string in
  let data := JObj [("display_name", JStr display_name);
                    ("description", JStr description)] in
  _make_request self "POST" endpoint (Some data) 0.

Definition deploy_index (self : LogoSimilarityAnalyzer)
                        (index_endpoint_id corpus_id index_id : string) : M json :=
  let endpoint :=
    (parent self ++ "/indexEndpoints/" ++ index_endpoint_id ++ ":deployIndex")%string in
  let data :=
    JObj [("deployedIndex",
           JObj [("index",
                  JStr (parent self ++ "/corpora/" ++ corpus_id
                        ++ "/indexes/" ++ index_id)%string)])] in
  _make_request self "POST" endpoint (Some data) 0.

Definition asset_data (gcs_uri : string) : json :=
  JObj [("asset", JObj [("display_name", JStr (os_path.basename gcs_uri));
                        ("gcs_uri", JStr gcs_uri)])].

Definition create_asset (self : LogoSimilarityAnalyzer) (corpus_id gcs_uri : string)
  : M json :=
  let endpoint := (parent self ++ "/corpora/" ++ corpus_id ++ "/assets")%string in
  _make_request self "POST" endpoint (Some (asset_data gcs_uri)) 0.

(** The test of the enumeration loop:
    [file.lower().endswith(SUPPORTED_FORMATS)]. *)
Definition is_supported (file : string) : bool :=
  PyStr.endswith_any (PyStr.lower file) config.SUPPORTED_FORMATS.

(** The two nested [for] loops that fill [image_files]. *)
Definition enumerate_images (walked : list (string * list string * list string))
  : list string :=
  fold_left
    (fun image_files entry =>
       let '(root, _, files) := entry in
       fold_left
         (fun image_files file =>
            if is_supported file
            then image_files ++ [os_path.join root file]
            else image_files)
         files image_files)
    walked [].

(** [f"logos/{datetime.now().strftime('%Y%m%d')}/{os.path.basename(image_path)}"] *)
Definition destination_blob (today : date) (image_path : string) : string :=
  ("logos/" ++ strftime_Ymd today ++ "/" ++ os_path.basename image_path)%string.

(** The first inner loop: upload the batch, collecting the URIs. *)
Definition upload_batch (bucket_name : string) (batch : list string) : M (list string) :=
  for_each batch
    (fun image_path =>
       today <- datetime_now ;;
       upload_to_gcs bucket_name image_path (destination_blob today image_path)).

(** The second inner loop: one asset per collected URI. *)
Definition register_batch (self : LogoSimilarityAnalyzer) (corpus_id : string)
                          (gcs_uris : list string) : M unit :=
  for_ gcs_uris (fun gcs_uri => create_asset self corpus_id gcs_uri ;; ret tt).

(** The body of the batch loop. *)
Definition process_batch (self : LogoSimilarityAnalyzer) (corpus_id bucket_name : string)
                         (batch : list string) : M unit :=
  gcs_uris <- upload_batch bucket_name batch ;;
  register_batch self corpus_id gcs_uris.

(** [process_images], the batch size left as a parameter ([tqdm] only
    draws a progress bar around the [range]). *)
Definition process_images_by (batch_size : nat) (self : LogoSimilarityAnalyzer)
    (image_dir corpus_id bucket_name : string) : M unit :=
  logger INFO (Msg "Starting image processing...") ;;
  walked <- os_walk image_dir ;;
  let image_files := enumerate_images walked in
  starts <- lift (range 0 (length image_files) batch_size) ;;
  for_ starts
    (fun i =>
       let batch := slice image_files i (i + batch_size) in
       process_batch self corpus_id bucket_name batch).

Definition process_images : LogoSimilarityAnalyzer -> string -> string -> string -> M unit :=
  process_images_by config.BATCH_SIZE.

Definition search_similar_images (self : LogoSimilarityAnalyzer)
    (index_endpoint_id query_image_path : string) (max_results : Z) : M json :=
  let endpoint :=
    (parent self ++ "/indexEndpoints/" ++ index_endpoint_id ++ ":findNeighbors")%string in
  let bucket_name := (project_number self ++ "-query-images")%string in
  today <- datetime_now ;;
  let destination_blob :=
    ("query/" ++ strftime_Ymd today ++ "/" ++ os_path.basename query_image_path)%string in
  gcs_uri <- upload_to_gcs bucket_name query_image_path destination_blob ;;
  let data := JObj [("query_image", JObj [("gcs_uri", JStr gcs_uri)]);
                    ("max_results", JInt max_results)] in
  _make_request self "POST" endpoint (Some data) 0.

(** Parsed command line. *)
Record Args : Type := {
  image_dir : string;
  bucket : string;
  spreadsheet_id : option string;
  max_results : Z
}.

(** Truth value of an optional string ([None] and [""] are false). *)
Definition truthy (o : option string) : bool :=
  match o with
  | Some s => negb (String.eqb s EmptyString)
  | None => false
  end.

(** [response["response"]["name"].split("/")[-1]] *)
Definition extract_id (response : json) : M string :=
  inner <- lift (getitem response "response") ;;
  name <- lift (getitem inner "name") ;;
  parts <- lift (split_slash name) ;;
  lift (last_item parts).

(** The [try] block of [main]. *)
Definition main_body (args : Args) : M unit :=
  analyzer <- __init__ config.PROJECT_NUMBER config.LOCATION ;;
  logger INFO (Msg "Creating corpus...") ;;
  corpus_response <- create_corpus analyzer ;;
  corpus_id <- extract_id corpus_response ;;
  logger INFO (Msg "Processing images...") ;;
  process_images analyzer (image_dir args) corpus_id (bucket args) ;;
  logger INFO (Msg "Creating index...") ;;
  index_response <- create_index analyzer corpus_id ;;
  index_id <- extract_id index_response ;;
  logger INFO (Msg "Creating index endpoint...") ;;
  today <- datetime_now ;;
  endpoint_response <-
    create_index_endpoint analyzer
      ("logo_similarity_endpoint_" ++ strftime_Ymd today)%string
      "Endpoint for logo similarity search" ;;
  endpoint_id <- extract_id endpoint_response ;;
  logger INFO (Msg "Deploying index...") ;;
  deploy_index analyzer endpoint_id corpus_id index_id ;;
  (if truthy (spreadsheet_id args)
   then logger INFO (Msg "Saving results to spreadsheet...")
        (* followed by [pass] *)
   else ret tt) ;;
  logger INFO (Msg "Processing completed successfully!").

(** [main]: any exception is logged and raised again. *)
Definition main (args : Args) : M unit :=
  fun w =>
    match main_body args w with
    | (Raise e, w') => (Raise e, write_log ERROR (MsgExc "An error occurred: " e) w')
    | done => done
    end.

(** ** Vocabulary of the statements *)

(** What the [try] block of [_make_request] makes of one reply. *)
Definition outcome (reply : http_reply) : result json :=
  match reply with
  | Throws e => Raise e
  | Responds r =>
      match raise_for_status r with
      | Some e => Raise (RequestException e)
      | None => resp_json r
      end
  end.

(** The request that [_make_request] puts on the wire at each attempt. *)
Definition request_event (self : LogoSimilarityAnalyzer) (method endpoint : string)
                         (data : option json) : event :=
  EvHttp method (request_url self endpoint) (request_headers self)
         (if String.eqb method "POST" then data else None) config.TIMEOUT.

(** The warnings logged by [n] successive retries starting at counter [c]. *)
Definition retry_warnings (c : Z) (n : nat) : list (level * message) :=
  map (fun i => (WARNING, retry_warning (c + Z.of_nat i))) (seq 0 n).

(** The chunks the batch loop slices out of the file list. *)
Definition chunks {A : Type} (batch_size : nat) (l : list A) (starts : list nat)
  : list (list A) :=
  map (fun i => slice l i (i + batch_size)) starts.

(** The upload of one file on a given day, and the URI it returns. *)
Definition upload_event (bucket_name : string) (today : date) (image_path : string)
                        (stored : bool) : event :=
  EvUpload bucket_name image_path (destination_blob today image_path) stored.

Definition upload_uri (bucket_name : string) (today : date) (image_path : string)
  : string :=
  ("gs://" ++ bucket_name ++ "/" ++ destination_blob today image_path)%string.

(** The asset-registration request for one URI. *)
Definition register_event (self : LogoSimilarityAnalyzer) (corpus_id gcs_uri : string)
  : event :=
  request_event self "POST"
    (parent self ++ "/corpora/" ++ corpus_id ++ "/assets")%string
    (Some (asset_data gcs_uri)).

Definition is_upload (e : event) : bool :=
  match e with EvUpload _ _ _ _ => true | _ => false end.

Definition is_http (e : event) : bool :=
  match e with EvHttp _ _ _ _ _ => true | _ => false end.

Definition is_sheet_update (e : event) : bool :=
  match e with EvSheetUpdate _ _ _ _ => true | _ => false end.

(** A request to the [:findNeighbors] action. *)
Definition is_search (e : event) : bool :=
  match e with
  | EvHttp _ url _ _ _ => PyStr.endswith url ":findNeighbors"
  | _ => false
  end.

(** The loops of [process_images] as a comprehension. *)
Definition selected (walked : list (string * list string * list string))
  : list string :=
  flat_map
    (fun entry : string * list string * list string =>
       let '(root, _, files) := entry in
       map (os_path.join root) (filter is_supported files))
    walked.

(** [name] ends with [ext] when letter case is ignored. *)
Definition ends_with_ci (name ext : string) : Prop :=
  exists stem tail : string,
    name = (stem ++ tail)%string /\ PyStr.lower tail = PyStr.lower ext.

(** A directory of the tree under [top], with the path [os.walk] gives it. *)
Inductive reaches : string -> dir -> string -> dir -> Prop :=
| reaches_top (top : string) (d : dir) : reaches top d top d
| reaches_sub (top : string) (subdirs : list (string * dir)) (files : list string)
              (name : string) (sub : dir) (root : string) (d : dir) :
    In (name, sub) subdirs ->
    reaches (os_path.join top name) sub root d ->
    reaches top (Dir subdirs files) root d.

(** A loop body run on the items of a list one after the other: each run
    ends before the next starts from the world it left, and the first
    exception ends the loop. *)
Inductive in_sequence {A : Type} (body : A -> M unit)
  : list A -> World -> result unit * World -> Prop :=
| seq_done (w : World) : in_sequence body [] w (Ok tt, w)
| seq_raise (x : A) (xs : list A) (w w' : World) (e : exception) :
    body x w = (Raise e, w') ->
    in_sequence body (x :: xs) w (Raise e, w')
| seq_next (x : A) (xs : list A) (w w1 : World) (end_ : result unit * World) :
    body x w = (Ok tt, w1) ->
    in_sequence body xs w1 end_ ->
    in_sequence body (x :: xs) w end_.

(** What [os.walk(top)] yields in a world. *)
Definition walked (w : World) (top : string)
  : list (string * list string * list string) :=
  match fs w top with
  | Some d => walk top d
  | None => []
  end.

(** The shape of a creation response. *)
Definition creation_response (name : string) : json :=
  JObj [("response", JObj [("name", JStr name)])].

(** Rows that share the field names of a header, each name once. *)
Definition uniform (header : list string) (r : row) : Prop :=
  NoDup (map fst r) /\ (forall k, In k (map fst r) <-> In k header).

(** The stored uploads of dated files, and the URIs they return. *)
Definition stored_uploads (bucket_name : string) (dated : list (date * string))
  : list event :=
  map (fun p => upload_event bucket_name (fst p) (snd p) true) dated.

Definition returned_uris (bucket_name : string) (dated : list (date * string))
  : list string :=
  map (fun p => upload_uri bucket_name (fst p) (snd p)) dated.

(** The requests of a registration pass: each URI in turn, as many times as
    it was attempted. *)
Definition registration_requests (self : LogoSimilarityAnalyzer) (corpus_id : string)
    (attempted : list (string * nat)) : list event :=
  concat (map (fun p => repeat (register_event self corpus_id (fst p)) (snd p))
              attempted).

(** [id] is the final slash-separated segment of [name]. *)
Definition final_segment (name id : string) : Prop :=
  PyStr.occurs os_path.sep id = false
  /\ (name = id \/ exists path, name = (path ++ String os_path.sep id)%string).

(** [response] carries [name] at [response["response"]["name"]]. *)
Definition named (response : json) (name : string) : Prop :=
  exists fields inner,
    response = JObj fields
    /\ lookup "response" fields = Some (JObj inner)
    /\ lookup "name" inner = Some (JStr name).

(** An event other than a search request or a spreadsheet update. *)
Definition before_last_stage (e : event) : bool :=
  negb (is_search e) && negb (is_sheet_update e).

(** A computation that adds only events satisfying [P] to the trace. *)
Definition emits_only (P : event -> bool) {A : Type} (c : M A) : Prop :=
  forall w, exists evs, trace (snd (c w)) = trace w ++ evs /\ forallb P evs = true.

(** ** Sample inputs *)

Definition answers (j : json) : http_reply :=
  Responds {| raise_for_status := None; resp_json := Ok j |}.

Definition rejects (status : Z) : http_reply :=
  Responds {| raise_for_status := Some (HTTPError status); resp_json := Ok JNull |}.

(** A world that answers HTTP calls from a list (a timeout once the list is
    used up), stores every upload, and shows one directory [imgs]. *)
Definition scripted (replies : list http_reply) (tree : option dir) : World :=
  {| gcloud := Ok "ya29.token";
     fs := fun p => if String.eqb p "imgs" then tree else None;
     http_replies := fun k => nth k replies (Throws (RequestException Timeout));
     gcs_replies := fun _ => None;
     sheets_replies := fun _ => None;
     clock := fun _ => {| year := 2024; month := 3; day := 7 |};
     trace := [];
     log := [] |}.

Definition sample_tree : dir :=
  Dir [("sub", Dir [] ["b.JPG"; "notes.txt"])] ["a.png"].

Definition sample_replies : list http_reply :=
  [rejects 503;
   answers (creation_response "projects/p/locations/l/corpora/c42");
   answers JNull;
   answers JNull;
   answers (creation_response "projects/p/locations/l/corpora/c42/indexes/i7");
   answers (creation_response "projects/p/locations/l/indexEndpoints/e9");
   answers JNull].

Definition sample_world : World := scripted sample_replies (Some sample_tree).

Definition sample_args : Args :=
  {| image_dir := "imgs"; bucket := "bkt";
     spreadsheet_id := Some "sheet-123"; max_results := 10 |}.

Definition sample_analyzer : LogoSimilarityAnalyzer :=
  {| project_number := config.PROJECT_NUMBER; location := config.LOCATION;
     base_url := "https://warehouse-visionai.googleapis.com/v1";
     token := "ya29.token" |}.

Definition sample_rows : list row :=
  [[("Query Image", CStr "q.png"); ("Similar Image", CStr "a.png");
    ("Similarity Score", CFloat "0.93")];
   [("Query Image", CStr "q.png"); ("Similar Image", CStr "b.png");
    ("Similarity Score", CFloat "0.71")]].

(** ** Further vocabulary *)

(** Two worlds that differ at most in the HTTP replies left, the trace and
    the log. *)
Definition same_surroundings (w w' : World) : Prop :=
  gcloud w' = gcloud w /\ fs w' = fs w /\ gcs_replies w' = gcs_replies w
  /\ sheets_replies w' = sheets_replies w /\ clock w' = clock w.

(** Strings made of whitespace only. *)
Fixpoint all_space (s : string) : bool :=
  match s with
  | EmptyString => true
  | String c s' => PyStr.is_space c && all_space s'
  end.

(** A world in which [gcloud] behaves as given. *)
Definition with_gcloud (out : result string) (w : World) : World :=
  {| gcloud := out; fs := fs w; http_replies := http_replies w;
     gcs_replies := gcs_replies w; sheets_replies := sheets_replies w;
     clock := clock w; trace := trace w; log := log w |}.

(** The stages of [main] that follow the construction of the analyzer: the
    rest of its [try] block. *)
Definition driver_stages (analyzer : LogoSimilarityAnalyzer) (args : Args) : M unit :=
  logger INFO (Msg "Creating corpus...") ;;
  corpus_response <- create_corpus analyzer ;;
  corpus_id <- extract_id corpus_response ;;
  logger INFO (Msg "Processing images...") ;;
  process_images analyzer (image_dir args) corpus_id (bucket args) ;;
  logger INFO (Msg "Creating index...") ;;
  index_response <- create_index analyzer corpus_id ;;
  index_id <- extract_id index_response ;;
  logger INFO (Msg "Creating index endpoint...") ;;
  today <- datetime_now ;;
  endpoint_response <-
    create_index_endpoint analyzer
      ("logo_similarity_endpoint_" ++ strftime_Ymd today)%string
      "Endpoint for logo similarity search" ;;
  endpoint_id <- extract_id endpoint_response ;;
  logger INFO (Msg "Deploying index...") ;;
  deploy_index analyzer endpoint_id corpus_id index_id ;;
  (if truthy (spreadsheet_id args)
   then logger INFO (Msg "Saving results to spreadsheet...")
   else ret tt) ;;
  logger INFO (Msg "Processing completed successfully!").

(** The analyzer that [main] builds around a token. *)
Definition analyzer_with (token : string) : LogoSimilarityAnalyzer :=
  {| project_number := config.PROJECT_NUMBER; location := config.LOCATION;
     base_url := "https://warehouse-visionai.googleapis.com/v1";
     token := token |}.

(** The token the driver works with in a world (none when [gcloud] fails). *)
Definition token_of (w : World) : string :=
  match gcloud w with
  | Ok stdout => PyStr.strip stdout
  | Raise _ => EmptyString
  end.

(** An event that, if it is an HTTP request, is a POST to a resource of the
    configured project and location, carrying the bearer token and the JSON
    content type and nothing else as headers, with the configured timeout. *)
Definition is_authorized (token : string) (e : event) : bool :=
  match e with
  | EvHttp method url headers _ timeout =>
      String.eqb method "POST"
      && PyStr.startswith url
           "https://warehouse-visionai.googleapis.com/v1/projects/your-project-number/locations/us-central1/"
      && match headers with
         | [(k1, v1); (k2, v2)] =>
             String.eqb k1 "Authorization"
             && String.eqb v1 ("Bearer " ++ token)
             && String.eqb k2 "Content-Type"
             && String.eqb v2 "application/json; charset=utf-8"
         | _ => false
         end
      && (timeout =? config.TIMEOUT)%Z
  | _ => true
  end.

(** Log lines. *)
Definition success_line : level * message :=
  (INFO, Msg "Processing completed successfully!").

Definition error_line (e : exception) : level * message :=
  (ERROR, MsgExc "An error occurred: " e).

(** A line that is neither an error nor the announcement of success. *)
Definition is_progress_line (l : level * message) : bool :=
  match l with
  | (ERROR, _) => false
  | (INFO, Msg text) => negb (String.eqb text "Processing completed successfully!")
  | _ => true
  end.

(** A computation that adds only lines satisfying [Q] to the log. *)
Definition logs_only (Q : level * message -> bool) {A : Type} (c : M A) : Prop :=
  forall w, exists ls, log (snd (c w)) = log w ++ ls /\ forallb Q ls = true.

(** A computation that logs progress lines and, when it ends normally, the
    announcement of success as its last line. *)
Definition announces_success {A : Type} (c : M A) : Prop :=
  forall w,
    exists earlier,
      forallb is_progress_line earlier = true
      /\ log (snd (c w))
         = log w ++ earlier
           ++ match fst (c w) with Ok _ => [success_line] | Raise _ => [] end.

(** A world in which every upload is stored and every request is answered
    with a parsed body at the first attempt. *)
Definition healthy (w : World) : Prop :=
  (forall i, gcs_replies w i = None)
  /\ (forall i, exists j, outcome (http_replies w i) = Ok j).

(** A world in which nothing fails: every request is answered with the
    same body and every upload is stored. *)
Definition obliging (body : json) (tree : option dir) : World :=
  {| gcloud := Ok "ya29.token";
     fs := fun p => if String.eqb p "imgs" then tree else None;
     http_replies := fun _ => answers body;
     gcs_replies := fun _ => None;
     sheets_replies := fun _ => None;
     clock := fun _ => {| year := 2024; month := 3; day := 7 |};
     trace := [];
     log := [] |}.

(** [for x in xs: ...] around a local that the body updates. *)
Fixpoint for_fold {A S : Type} (xs : list A) (acc : S) (body : S -> A -> M S) : M S :=
  match xs with
  | [] => ret acc
  | x :: xs' => acc' <- body acc x ;; for_fold xs' acc' body
  end.

Section UploadDirectory.

(** [os.path.relpath(path, start)], left to the library. *)
Variable relpath : string -> string -> string.

(** [utils/gcs.py], [upload_directory_to_gcs] *)
Definition upload_directory_to_gcs (bucket_name source_dir destination_prefix : string)
  : M (list string) :=
  walked <- os_walk source_dir ;;
  for_fold walked []
    (fun uploaded_files entry =>
       let '(root, _, files) := entry in
       for_fold files uploaded_files
         (fun uploaded_files file =>
            if PyStr.endswith_any (PyStr.lower file) [".jpg"; ".jpeg"; ".png"]
            then
              let source_path := os_path.join root file in
              let relative_path := relpath source_path source_dir in
              let destination_path := os_path.join destination_prefix relative_path in
              gcs_uri <- upload_to_gcs bucket_name source_path destination_path ;;
              ret (uploaded_files ++ [gcs_uri])
            else ret uploaded_files)).

(** Where a file of the directory goes, and the upload that takes it there. *)
Definition directory_destination (source_dir destination_prefix source_path : string)
  : string :=
  os_path.join destination_prefix (relpath source_path source_dir).

Definition directory_upload (bucket_name source_dir destination_prefix source_path : string)
  : event :=
  EvUpload bucket_name source_path
           (directory_destination source_dir destination_prefix source_path) true.

Definition directory_uri (bucket_name source_dir destination_prefix source_path : string)
  : string :=
  ("gs://" ++ bucket_name ++ "/"
   ++ directory_destination source_dir destination_prefix source_path)%string.

End UploadDirectory.

(** A path relative to a directory, for the samples: the directory and the
    slash after it are dropped. *)
Definition sample_relpath (path start : string) : string :=
  PyStr.drop (String.length start + 1) path.

(** A registration request of an analyzer for a corpus. *)
Definition registers_in (self : LogoSimilarityAnalyzer) (corpus_id : string)
                        (e : event) : bool :=
  match e with
  | EvHttp method url _ _ _ =>
      String.eqb method "POST"
      && String.eqb url
           (request_url self (parent self ++ "/corpora/" ++ corpus_id ++ "/assets"))
  | _ => false
  end.

(** Uploads by their result. *)
Definition is_stored_upload (e : event) : bool :=
  match e with EvUpload _ _ _ true => true | _ => false end.

Definition is_failed_upload (e : event) : bool :=
  match e with EvUpload _ _ _ false => true | _ => false end.

Definition is_token_call (e : event) : bool :=
  match e with EvToken => true | _ => false end.

(** A computation whose requests number at most [MAX_RETRIES + 1] for each
    upload it stored and for each of [calls] further calls. *)
Definition requests_bounded (calls : nat) {A : Type} (c : M A) : Prop :=
  forall w,
    exists evs,
      trace (snd (c w)) = trace w ++ evs
      /\ length (filter is_http evs)
         <= 4 * (length (filter is_stored_upload evs) + calls).

(** A computation during which a failed upload can only be the last event,
    reached when the computation raises. *)
Definition stops_at_failed_upload {A : Type} (c : M A) : Prop :=
  forall w,
    exists evs last_one,
      trace (snd (c w)) = trace w ++ evs ++ last_one
      /\ forallb (fun e => negb (is_failed_upload e)) evs = true
      /\ (last_one = []
          \/ exists b s d e,
               last_one = [EvUpload b s d false] /\ fst (c w) = Raise e).

(** A computation that logs lines satisfying [Q] and then, when it ends
    normally, the lines [closing]. *)
Definition closes_log_with (Q : level * message -> bool)
    (closing : list (level * message)) {A : Type} (c : M A) : Prop :=
  forall w,
    exists earlier,
      forallb Q earlier = true
      /\ log (snd (c w))
         = log w ++ earlier
           ++ match fst (c w) with Ok _ => closing | Raise _ => [] end.

Definition saving_line : level * message :=
  (INFO, Msg "Saving results to spreadsheet...").

Definition is_saving_line (l : level * message) : bool :=
  match l with
  | (INFO, Msg text) => String.eqb text "Saving results to spreadsheet..."
  | _ => false
  end.

(** The URI a stored upload returned, and the URI an asset registration
    carries. *)
Definition stored_uri (e : event) : option string :=
  match e with
  | EvUpload b _ d true => Some ("gs://" ++ b ++ "/" ++ d)%string
  | _ => None
  end.

Definition registered_uri (e : event) : option string :=
  match e with
  | EvHttp _ _ _
      (Some (JObj [("asset", JObj [("display_name", _); ("gcs_uri", JStr u)])])) _ =>
      Some u
  | _ => None
  end.

(** The URIs known after some events. *)
Definition known_after (known : list string) (evs : list event) : list string :=
  fold_left (fun known e => match stored_uri e with
                            | Some u => u :: known
                            | None => known
                            end) evs known.

(** Every registration among [evs] carries a URI that is known, or that a
    stored upload returned earlier among [evs]. *)
Fixpoint registrations_follow_uploads (known : list string) (evs : list event) : bool :=
  match evs with
  | [] => true
  | e :: rest =>
      match registered_uri e with
      | Some u => existsb (String.eqb u) known
      | None => true
      end
      && registrations_follow_uploads
           (match stored_uri e with Some u => u :: known | None => known end) rest
  end.

(** A computation that keeps registrations behind the uploads. *)
Definition keeps_uploads_first {A : Type} (c : M A) : Prop :=
  forall w,
    exists evs,
      trace (snd (c w)) = trace w ++ evs
      /\ registrations_follow_uploads [] evs = true.

(** The local files that the uploads among some events read, in order. *)
Definition upload_sources (evs : list event) : list string :=
  flat_map (fun e => match e with EvUpload _ s _ _ => [s] | _ => [] end) evs.

(** [body] is the parsed body of a reply that a call made in [w] can end
    on: one of the next [MAX_RETRIES + 1] replies of the service. *)
Definition replied (w : World) (body : json) : Prop :=
  exists k,
    (Z.of_nat k <= config.MAX_RETRIES)%Z /\ outcome (http_replies w k) = Ok body.

(** A reply whose parsed body carries, at ["response"]["name"], a name of
    which [id] is the final segment. *)
Definition creation_reply (reply : http_reply) (id : string) : Prop :=
  exists response name,
    outcome reply = Ok response /\ named response name /\ final_segment name id.

(** The number of requests among some events. *)
Definition requests_in (evs : list event) : nat := length (filter is_http evs).

(** A computation that takes one reply of the service for each request it
    sends: the reply number [i] of the world answers its request number
    [i]. *)
Definition one_reply_each {A : Type} (c : M A) : Prop :=
  forall w,
    exists evs,
      trace (snd (c w)) = trace w ++ evs
      /\ forall i, http_replies (snd (c w)) i = http_replies w (i + requests_in evs).

(** * Properties *)

(** ** Strings and paths *)

Lemma append_nil_r (s : string) : (s ++ "")%string = s.
Proof. induction s as [|c s IH]; simpl; [reflexivity | now rewrite IH]. Qed.

Lemma append_assoc (a b c : string) :
  ((a ++ b) ++ c)%string = (a ++ (b ++ c))%string.
Proof. induction a as [|x a IH]; simpl; [reflexivity | now rewrite IH]. Qed.

Lemma length_append (a b : string) :
  String.length (a ++ b) = String.length a + String.length b.
Proof. induction a as [|x a IH]; simpl; [reflexivity | now rewrite IH]. Qed.

Lemma lower_append (a b : string) :
  PyStr.lower (a ++ b) = (PyStr.lower a ++ PyStr.lower b)%string.
Proof. induction a as [|x a IH]; simpl; [reflexivity | now rewrite IH]. Qed.

(** [endswith] is the suffix relation. *)
Lemma endswith_spec (s suf : string) :
  PyStr.endswith s suf = true <-> exists stem, s = (stem ++ suf)%string.
Proof.
  induction s as [|c s IH]; cbn [PyStr.endswith].
  - rewrite orb_false_r, String.eqb_eq. split.
    + intros <-. now exists "".
    + intros [[|x stem] H]; simpl in H; [assumption | discriminate].
  - rewrite orb_true_iff, String.eqb_eq, IH. split.
    + intros [<- | [stem ->]]; [now exists "" | now exists (String c stem)].
    + intros [[|x stem] H]; simpl in H.
      * now left.
      * right. injection H as _ ->. now exists stem.
Qed.

(** A split of a lower-cased string comes from a split of the string. *)
Lemma lower_split (s a b : string) :
  PyStr.lower s = (a ++ b)%string ->
  exists a' b', s = (a' ++ b')%string /\ PyStr.lower a' = a /\ PyStr.lower b' = b.
Proof.
  revert s. induction a as [|x a IH]; intros s H; simpl in H.
  - exists "", s. auto.
  - destruct s as [|c s]; simpl in H; [discriminate |].
    injection H as Hc Hs. destruct (IH _ Hs) as (a' & b' & -> & <- & <-).
    exists (String c a'), b'. simpl. now rewrite Hc.
Qed.

Lemma endswith_lower_ci (name ext : string) :
  PyStr.lower ext = ext ->
  PyStr.endswith (PyStr.lower name) ext = true <-> ends_with_ci name ext.
Proof.
  intros Hext. rewrite endswith_spec. unfold ends_with_ci. rewrite Hext. split.
  - intros [stem H]. destruct (lower_split _ _ _ H) as (a & b & -> & _ & Hb).
    now exists a, b.
  - intros (stem & tail & -> & Ht). exists (PyStr.lower stem).
    now rewrite lower_append, Ht.
Qed.

(** ** Enumeration of the image files *)

Lemma inner_loop (root : string) (files acc : list string) :
  fold_left
    (fun image_files file =>
       if is_supported file then image_files ++ [os_path.join root file]
       else image_files)
    files acc
  = acc ++ map (os_path.join root) (filter is_supported files).
Proof.
  revert acc. induction files as [|f files IH]; intros acc; simpl.
  - now rewrite app_nil_r.
  - rewrite IH. destruct (is_supported f); simpl; [| reflexivity].
    now rewrite <- app_assoc.
Qed.

Lemma enumerate_images_selected walked :
  enumerate_images walked = selected walked.
Proof.
  unfold enumerate_images.
  enough (H : forall acc,
             fold_left
               (fun image_files (entry : string * list string * list string) =>
                  let '(root, _, files) := entry in
                  fold_left
                    (fun image_files file =>
                       if is_supported file
                       then image_files ++ [os_path.join root file]
                       else image_files)
                    files image_files)
               walked acc
             = acc ++ selected walked) by apply (H []).
  induction walked as [|[[root dirs] files] walked IH]; intros acc; simpl.
  - now rewrite app_nil_r.
  - rewrite IH, inner_loop. now rewrite <- app_assoc.
Qed.

Lemma is_supported_iff (file : string) :
  is_supported file = true <->
  exists ext, In ext config.SUPPORTED_FORMATS /\ ends_with_ci file ext.
Proof.
  unfold is_supported, PyStr.endswith_any. rewrite existsb_exists.
  split; intros (ext & Hin & H); exists ext; split; try assumption.
  - apply endswith_lower_ci; [| assumption].
    simpl in Hin. destruct Hin as [<- | [<- | [<- | []]]]; reflexivity.
  - apply endswith_lower_ci in H; [assumption |].
    simpl in Hin. destruct Hin as [<- | [<- | [<- | []]]]; reflexivity.
Qed.

(** Induction on directory trees. *)
Lemma dir_induction (P : dir -> Prop) :
  (forall subdirs files,
      (forall name sub, In (name, sub) subdirs -> P sub) ->
      P (Dir subdirs files)) ->
  forall d, P d.
Proof.
  intros step. fix IH 1. intros [subdirs files]. apply step.
  induction subdirs as [|[n s] rest IHrest]; intros name sub Hin.
  - destruct Hin.
  - destruct Hin as [Heq | Hin].
    + injection Heq as _ <-. apply IH.
    + exact (IHrest name sub Hin).
Qed.

Lemma walk_unfold (top : string) subdirs files :
  walk top (Dir subdirs files)
  = (top, map fst subdirs, files)
    :: flat_map (fun p : string * dir => walk (os_path.join top (fst p)) (snd p))
                subdirs.
Proof.
  simpl. f_equal. induction subdirs as [|[n s] rest IH]; simpl.
  - reflexivity.
  - now rewrite IH.
Qed.

(** [os.walk] yields exactly the directories of the tree. *)
Lemma walk_reaches (d : dir) :
  forall top root dirs files,
    In (root, dirs, files) (walk top d) <->
    exists subdirs, reaches top d root (Dir subdirs files) /\ dirs = map fst subdirs.
Proof.
  induction d as [subdirs0 files0 IH] using dir_induction.
  intros top root dirs files. rewrite walk_unfold. split.
  - intros [Heq | Hin].
    + injection Heq as <- <- <-. exists subdirs0. split; [constructor | reflexivity].
    + apply in_flat_map in Hin. destruct Hin as ([name sub] & Hsub & Hin).
      simpl in Hin. apply (IH name sub Hsub) in Hin.
      destruct Hin as (subdirs & Hreach & ->).
      exists subdirs. split; [| reflexivity].
      eapply reaches_sub; eassumption.
  - intros (subdirs & Hreach & ->).
    inversion Hreach; subst.
    + now left.
    + right. apply in_flat_map. exists (name, sub). split; [assumption |].
      simpl. apply (IH name sub); [assumption |].
      exists subdirs. split; [assumption | reflexivity].
Qed.

(** C5: under the walked root, a file is enumerated exactly when its name,
    letter case ignored, ends with '.jpg', '.jpeg' or '.png': the test of the
    loop is that suffix test, the enumeration is the walk filtered by it
    (every other file is dropped, order kept), and its paths are the supported
    files of the directories reached by the recursive traversal. *)
Theorem enumeration_by_extension (top : string) (d : dir) :
  (forall file,
      is_supported file = true <->
      exists ext, In ext [".jpg"; ".jpeg"; ".png"] /\ ends_with_ci file ext)
  /\ enumerate_images (walk top d)
     = flat_map
         (fun entry : string * list string * list string =>
            let '(root, _, files) := entry in
            map (os_path.join root) (filter is_supported files))
         (walk top d)
  /\ (forall path,
        In path (enumerate_images (walk top d)) <->
        exists root subdirs files file,
          reaches top d root (Dir subdirs files) /\ In file files
          /\ is_supported file = true /\ path = os_path.join root file).
Proof.
  split; [exact is_supported_iff |].
  split; [apply enumerate_images_selected |].
  intros path. rewrite enumerate_images_selected. unfold selected.
  rewrite in_flat_map. split.
  - intros ([[root dirs] files] & Hwalk & Hin).
    apply in_map_iff in Hin. destruct Hin as (file & <- & Hfile).
    apply filter_In in Hfile. destruct Hfile as [Hfile Hsup].
    apply walk_reaches in Hwalk. destruct Hwalk as (subdirs & Hreach & _).
    now exists root, subdirs, files, file.
  - intros (root & subdirs & files & file & Hreach & Hfile & Hsup & ->).
    exists (root, map fst subdirs, files). split.
    + apply walk_reaches. now exists subdirs.
    + apply in_map. apply filter_In. now split.
Qed.

(** ** The batch loop *)

Lemma range_loop_starts (step : nat) (Hstep : 0 < step) :
  forall fuel i stop,
    stop - i <= fuel ->
    range_loop fuel i stop step
    = map (fun k => i + k * step) (seq 0 ((stop - i + step - 1) / step)).
Proof.
  induction fuel as [|fuel IH]; intros i stop Hfuel.
  - replace (stop - i + step - 1) with (step - 1) by lia.
    rewrite Nat.div_small by lia. reflexivity.
  - simpl. destruct (Nat.ltb_spec i stop) as [Hlt | Hge].
    + rewrite IH by lia.
      destruct (Nat.le_gt_cases (i + step) stop) as [Hfull | Hpart].
      * replace (stop - i + step - 1)
          with ((stop - (i + step) + step - 1) + 1 * step) by lia.
        rewrite Nat.div_add by lia. rewrite Nat.add_1_r. simpl.
        f_equal; [lia |]. rewrite <- seq_shift, map_map.
        apply map_ext. intros k. lia.
      * replace (stop - (i + step) + step - 1) with (step - 1) by lia.
        rewrite Nat.div_small by lia.
        replace ((stop - i + step - 1) / step) with 1.
        -- simpl. f_equal. lia.
        -- apply (Nat.div_unique _ _ 1 (stop - i - 1)); lia.
    + replace (stop - i + step - 1) with (step - 1) by lia.
      rewrite Nat.div_small by lia. reflexivity.
Qed.

Lemma range_from_zero (stop step : nat) :
  0 < step ->
  range 0 stop step
  = Ok (map (fun k => k * step) (seq 0 ((stop + step - 1) / step))).
Proof.
  intros Hstep. unfold range.
  destruct (Nat.eqb_spec step 0) as [-> | _]; [lia |].
  rewrite (range_loop_starts step Hstep) by lia.
  rewrite Nat.sub_0_r. reflexivity.
Qed.

Lemma slice_length {A : Type} (l : list A) (i j : nat) :
  length (slice l i j) = Nat.min (j - i) (length l - i).
Proof. unfold slice. now rewrite length_firstn, length_skipn. Qed.

Lemma slice_then_rest {A : Type} (l : list A) (i b : nat) :
  slice l i (i + b) ++ skipn (i + b) l = skipn i l.
Proof.
  unfold slice. replace (i + b - i) with b by lia.
  rewrite Nat.add_comm, <- skipn_skipn. apply firstn_skipn.
Qed.

(** Gluing the chunks cut at [i, i + b, i + 2b, ...] gives the list back. *)
Lemma concat_chunks_from {A : Type} (l : list A) (b : nat) (Hb : 0 < b) :
  forall n i,
    length l <= i + n * b ->
    concat (chunks b l (map (fun k => i + k * b) (seq 0 n))) = skipn i l.
Proof.
  unfold chunks. induction n as [|n IH]; intros i Hn; simpl.
  - symmetry. apply skipn_all2. lia.
  - rewrite <- seq_shift, !map_map.
    rewrite (map_ext _ (fun k => slice l ((i + b) + k * b) ((i + b) + k * b + b))).
    + rewrite <- (map_map (fun k => (i + b) + k * b) (fun s => slice l s (s + b))).
      rewrite IH by lia. rewrite Nat.add_0_r. apply slice_then_rest.
    + intros k. f_equal; lia.
Qed.

Lemma ceil_div_covers (n b : nat) : 0 < b -> n <= (n + b - 1) / b * b.
Proof.
  intros Hb. pose proof (Nat.div_mod (n + b - 1) b ltac:(lia)) as Hdm.
  pose proof (Nat.mod_upper_bound (n + b - 1) b ltac:(lia)). nia.
Qed.

Lemma ceil_div_tight (n b : nat) : 0 < b -> 0 < n -> ((n + b - 1) / b - 1) * b < n.
Proof.
  intros Hb Hn. pose proof (Nat.div_mod (n + b - 1) b ltac:(lia)) as Hdm.
  pose proof (Nat.mod_upper_bound (n + b - 1) b ltac:(lia)). nia.
Qed.

Lemma ceil_div_alt (n b : nat) :
  0 < b -> (n + b - 1) / b = n / b + (if (n mod b =? 0)%nat then 0 else 1).
Proof.
  intros Hb. pose proof (Nat.div_mod n b ltac:(lia)) as Hdm.
  pose proof (Nat.mod_upper_bound n b ltac:(lia)) as Hlt.
  symmetry. destruct (Nat.eqb_spec (n mod b) 0) as [H0 | Hn0].
  - apply (Nat.div_unique _ _ _ (b - 1)); lia.
  - apply (Nat.div_unique _ _ _ (n mod b - 1)); lia.
Qed.

Lemma chunk_nth {A : Type} (l : list A) (b n k : nat) :
  k < n ->
  nth k (chunks b l (map (fun k => k * b) (seq 0 n))) [] = slice l (k * b) (k * b + b).
Proof.
  intros Hk. unfold chunks. rewrite map_map.
  rewrite (nth_indep _ [] (slice l (0 * b) (0 * b + b))) by now rewrite length_map, length_seq.
  rewrite (map_nth (fun k => slice l (k * b) (k * b + b)) (seq 0 n) 0 k).
  now rewrite seq_nth.
Qed.

Lemma last_nth {A : Type} (l : list A) (d : A) :
  last l d = nth (length l - 1) l d.
Proof.
  induction l as [|x [|y l] IH]; try reflexivity.
  change (last (x :: y :: l) d) with (last (y :: l) d). rewrite IH.
  simpl. now rewrite Nat.sub_0_r.
Qed.

(** [for_] runs its body on the items in sequence. *)
Lemma for_in_sequence {A : Type} (body : A -> M unit) (xs : list A) :
  forall w, in_sequence body xs w (for_ xs body w).
Proof.
  induction xs as [|x xs IH]; intros w; simpl.
  - constructor.
  - unfold bind. destruct (body x w) as [[[] | e] w1] eqn:Hbody.
    + eapply seq_next; [exact Hbody | apply IH].
    + now apply seq_raise.
Qed.

Lemma for_map {A B : Type} (f : A -> B) (body : B -> M unit) (xs : list A) :
  forall w, for_ xs (fun x => body (f x)) w = for_ (map f xs) body w.
Proof.
  induction xs as [|x xs IH]; intros w; simpl; [reflexivity |].
  unfold bind. destruct (body (f x) w) as [[[] | e] w1]; [apply IH | reflexivity].
Qed.

(** C3: for a file list of length N and a batch size B > 0, the start
    indices that the loop's [range] yields cut the list into contiguous chunks
    in order: glued together they give the list back, there are
    N / B (+ 1 when B does not divide N) = ceil(N / B) of them, every chunk but
    the last has B files, the last has N mod B files (B when that is 0), and
    the loop runs the batch body on these chunks one after the other, each
    run ending before the next begins. *)
Theorem batches_partition (B : nat) (l : list string) :
  0 < B ->
  exists starts,
    range 0 (length l) B = Ok starts /\
    let cs := chunks B l starts in
    concat cs = l
    /\ length cs = length l / B + (if (length l mod B =? 0)%nat then 0 else 1)
    /\ (forall k, S k < length cs -> length (nth k cs []) = B)
    /\ (cs <> [] ->
        length (last cs []) = if (length l mod B =? 0)%nat then B else length l mod B)
    /\ (forall self image_dir corpus_id bucket_name w,
          enumerate_images (walked w image_dir) = l ->
          in_sequence (process_batch self corpus_id bucket_name) cs
            (write_log INFO (Msg "Starting image processing...") w)
            (process_images_by B self image_dir corpus_id bucket_name w)).
Proof.
  intros HB. set (n := (length l + B - 1) / B).
  exists (map (fun k => k * B) (seq 0 n)).
  split; [now apply range_from_zero |].
  assert (Hlen : length (chunks B l (map (fun k => k * B) (seq 0 n))) = n).
  { unfold chunks. now rewrite !length_map, length_seq. }
  pose proof (Nat.div_mod (length l) B ltac:(lia)) as Hdm.
  pose proof (Nat.mod_upper_bound (length l) B ltac:(lia)) as Hmod.
  assert (Hn : n = length l / B + (if (length l mod B =? 0)%nat then 0 else 1))
    by (apply ceil_div_alt; exact HB).
  cbv zeta. rewrite Hlen. repeat split.
  - rewrite (map_ext (fun k => k * B) (fun k => 0 + k * B)) by reflexivity.
    rewrite concat_chunks_from; [reflexivity | exact HB |].
    simpl. now apply ceil_div_covers.
  - exact Hn.
  - intros k Hk. rewrite chunk_nth by lia. rewrite slice_length.
    destruct (Nat.eqb_spec (length l mod B) 0); nia.
  - intros Hne. rewrite last_nth, Hlen.
    assert (0 < n).
    { destruct n; [| lia]. exfalso. apply Hne. reflexivity. }
    rewrite chunk_nth by lia. rewrite slice_length.
    destruct (Nat.eqb_spec (length l mod B) 0); nia.
  - intros self image_dir corpus_id bucket_name w Hfiles.
    unfold process_images_by, bind, logger, os_walk, lift.
    fold (walked w image_dir).
    replace (match fs (write_log INFO (Msg "Starting image processing...") w) image_dir with
             | Some d => (Ok (walk image_dir d), write_log INFO (Msg "Starting image processing...") w)
             | None => (Ok [], write_log INFO (Msg "Starting image processing...") w)
             end)
      with (Ok (walked w image_dir), write_log INFO (Msg "Starting image processing...") w)
      by (unfold walked; simpl; destruct (fs w image_dir); reflexivity).
    rewrite Hfiles, range_from_zero by exact HB. fold n.
    unfold chunks.
    rewrite (for_map (fun i => slice l i (i + B))
                     (process_batch self corpus_id bucket_name)).
    apply for_in_sequence.
Qed.

(** The scenario of the specification: 250 files in batches of 100. *)
Example batches_of_250 :
  exists starts,
    range 0 (length (repeat "logo.png" 250)) config.BATCH_SIZE = Ok starts
    /\ map (@length string) (chunks config.BATCH_SIZE (repeat "logo.png" 250) starts)
       = [100; 100; 50].
Proof. eexists. split; vm_compute; reflexivity. Qed.

Lemma batches_partition_witness :
  exists starts,
    range 0 (length ["a"; "b"; "c"; "d"; "e"]) 2 = Ok starts /\
    chunks 2 ["a"; "b"; "c"; "d"; "e"] starts = [["a"; "b"]; ["c"; "d"]; ["e"]].
Proof.
  destruct (batches_partition 2 ["a"; "b"; "c"; "d"; "e"] ltac:(lia))
    as (starts & Hrange & _).
  exists starts. split; [exact Hrange |].
  vm_compute in Hrange. injection Hrange as <-. reflexivity.
Defined.

(** ** The request function *)

(** The defining equation of [_make_request], as the source reads. *)
Lemma make_request_unfold self method endpoint data c w :
  _make_request self method endpoint data c w =
  match try_block self method endpoint data w with
  | (Raise (RequestException e), w1) =>
      if (c <? config.MAX_RETRIES)%Z
      then _make_request self method endpoint data (c + 1)
             (write_log WARNING (retry_warning c) w1)
      else (Raise (RequestFailed config.MAX_RETRIES e), w1)
  | other => other
  end.
Proof.
  simp _make_request.
  destruct (try_block self method endpoint data w) as [[j | e] w1]; simpl.
  - reflexivity.
  - destruct e; simpl; try reflexivity.
    destruct (Z_lt_dec c config.MAX_RETRIES) as [Hlt | Hge]; simpl.
    + destruct (Z.ltb_spec c config.MAX_RETRIES); [reflexivity | lia].
    + destruct (Z.ltb_spec c config.MAX_RETRIES); [lia | reflexivity].
Qed.

(** With one of the two known methods the [try] block makes one exchange. *)
Lemma try_block_http self method endpoint data w :
  method = "POST" \/ method = "GET" ->
  try_block self method endpoint data w
  = (outcome (http_replies w 0),
     emit (request_event self method endpoint data) (next_http w)).
Proof.
  intros [-> | ->]; unfold try_block, request_event, requests_post, requests_get,
    send, bind, ret, raise, lift, outcome; simpl;
    destruct (http_replies w 0) as [[[e |] j] | e]; reflexivity.
Qed.

(** With any other method it makes none: [response] is read unbound. *)
Lemma try_block_unbound self method endpoint data w :
  method <> "POST" -> method <> "GET" ->
  try_block self method endpoint data w = (Raise (UnboundLocalError "response"), w).
Proof.
  intros HP HG. unfold try_block, bind, ret, raise.
  destruct (String.eqb_spec method "POST") as [-> | _]; [contradiction |].
  destruct (String.eqb_spec method "GET") as [-> | _]; [contradiction |].
  reflexivity.
Qed.

(** With an unknown method the call ends there, the world untouched. *)
Lemma make_request_unbound self method endpoint data retry_count w :
  method <> "POST" -> method <> "GET" ->
  _make_request self method endpoint data retry_count w
  = (Raise (UnboundLocalError "response"), w).
Proof.
  intros HP HG. rewrite make_request_unfold.
  now rewrite (try_block_unbound _ _ _ _ _ HP HG).
Qed.

Lemma retry_warnings_cons (c : Z) (k : nat) :
  retry_warnings c (S k) = (WARNING, retry_warning c) :: retry_warnings (c + 1) k.
Proof.
  unfold retry_warnings. simpl. rewrite Z.add_0_r. f_equal.
  rewrite <- seq_shift, map_map. apply map_ext. intros i.
  do 2 f_equal. lia.
Qed.

(** Closes the cases in which the call returns without retrying. *)
Ltac settle_at_once :=
  eexists _, _; split; [reflexivity |];
  simpl; unfold retry_warnings; simpl; rewrite ?app_nil_r;
  try match goal with H : outcome _ = _ |- _ => rewrite ?H end;
  repeat split;
  first [ reflexivity | lia
        | (let i := fresh "i" in intros i; unfold shift; f_equal; lia)
        | (let i := fresh "i" in let Hi := fresh "Hi" in intros i Hi; lia) ].

(** What a call made with a known method does, as a function of the replies
    of the world: [k] retries, hence [k + 1] identical requests; the first
    [k] replies were request failures; the reply number [k] decides the
    result, and is a request failure only when the retries are used up. *)
Lemma make_request_run self method endpoint data :
  method = "POST" \/ method = "GET" ->
  forall n c w,
    retries_left c = n ->
    exists k r w',
      _make_request self method endpoint data c w = (r, w')
      /\ k <= n
      /\ trace w' = trace w ++ repeat (request_event self method endpoint data) (S k)
      /\ log w' = log w ++ retry_warnings c k
      /\ (forall i, http_replies w' i = http_replies w (i + S k))
      /\ (forall i, i < k ->
            exists e, outcome (http_replies w i) = Raise (RequestException e))
      /\ match outcome (http_replies w k) with
         | Raise (RequestException e) =>
             k = n /\ r = Raise (RequestFailed config.MAX_RETRIES e)
         | other => r = other
         end.
Proof.
  intros Hm. induction n as [|n IH]; intros c w Hn;
    rewrite make_request_unfold, (try_block_http _ _ _ _ _ Hm).
  - exists 0.
    assert (Hc : (c <? config.MAX_RETRIES)%Z = false).
    { apply Z.ltb_ge. unfold retries_left in Hn. lia. }
    destruct (outcome (http_replies w 0)) as [j | e] eqn:Ho;
      [| destruct e; try rewrite Hc]; settle_at_once.
  - destruct (outcome (http_replies w 0)) as [j | e] eqn:Ho;
      [exists 0; settle_at_once |].
    destruct e as [e | | | | | | | | | | |]; try (exists 0; settle_at_once).
    assert (Hc : (c <? config.MAX_RETRIES)%Z = true).
    { apply Z.ltb_lt. unfold retries_left in Hn. lia. }
    rewrite Hc.
    destruct (IH (c + 1)%Z
                 (write_log WARNING (retry_warning c)
                    (emit (request_event self method endpoint data) (next_http w))))
      as (k & r & w' & Hrun & Hk & Htrace & Hlog & Hreplies & Hfailed & Hlast).
    { unfold retries_left in *. lia. }
    exists (S k), r, w'. split; [exact Hrun |].
    simpl in Htrace, Hlog, Hreplies, Hfailed, Hlast. unfold shift in *.
    repeat split.
    + lia.
    + rewrite Htrace, <- app_assoc. reflexivity.
    + rewrite Hlog, retry_warnings_cons, <- app_assoc. reflexivity.
    + intros i. rewrite Hreplies. f_equal. lia.
    + intros [|i] Hi; [now exists e |]. apply Hfailed. lia.
    + destruct (outcome (http_replies w (S k))) as [j | e'];
        [exact Hlast |].
      destruct e'; try exact Hlast.
      destruct Hlast as [-> ->]. split; reflexivity.
Qed.

(** C2: for a request made with POST or GET, every attempt that ends in a
    request failure -- an exception of the library (network error, timeout)
    or an HTTP error status reported by [raise_for_status], whatever the
    status -- is followed at once by the identical request; a call whose first
    success is attempt k+1 (k <= MAX_RETRIES) returns that success after
    exactly k+1 requests; a call whose MAX_RETRIES + 1 attempts all fail makes
    exactly MAX_RETRIES + 1 requests and raises the terminal error carrying
    the last failure. *)
Theorem retry_until_success_or_exhaustion self method endpoint data w :
  method = "POST" \/ method = "GET" ->
  let attempt := request_event self method endpoint data in
  let failed i := exists e, outcome (http_replies w i) = Raise (RequestException e) in
  (forall e, outcome (Throws (RequestException e)) = Raise (RequestException e))
  /\ (forall status body,
        outcome (Responds {| raise_for_status := Some (HTTPError status);
                             resp_json := body |})
        = Raise (RequestException (HTTPError status)))
  /\ (forall k j,
        (Z.of_nat k <= config.MAX_RETRIES)%Z ->
        (forall i, i < k -> failed i) ->
        outcome (http_replies w k) = Ok j ->
        exists w',
          _make_request self method endpoint data 0 w = (Ok j, w')
          /\ trace w' = trace w ++ repeat attempt (k + 1))
  /\ (forall e,
        (forall i, (Z.of_nat i < config.MAX_RETRIES)%Z -> failed i) ->
        outcome (http_replies w (Z.to_nat config.MAX_RETRIES))
        = Raise (RequestException e) ->
        exists w',
          _make_request self method endpoint data 0 w
          = (Raise (RequestFailed config.MAX_RETRIES e), w')
          /\ trace w' = trace w ++ repeat attempt (Z.to_nat config.MAX_RETRIES + 1)).
Proof.
  intros Hm attempt failed.
  split; [reflexivity |]. split; [reflexivity |].
  destruct (make_request_run self method endpoint data Hm _ 0%Z w eq_refl)
    as (k' & r & w' & Hrun & Hk' & Htrace & _ & _ & Hfailed & Hlast).
  change (retries_left 0) with 3 in *.
  change config.MAX_RETRIES with 3%Z.
  split.
  - intros k j Hk Hbefore Hok.
    assert (k' = k) as ->.
    { destruct (Nat.lt_trichotomy k' k) as [Hlt | [Heq | Hgt]].
      - destruct (Hbefore k' Hlt) as [e He]. rewrite He in Hlast.
        destruct Hlast as [-> _]. lia.
      - exact Heq.
      - destruct (Hfailed k Hgt) as [e He]. congruence. }
    rewrite Hok in Hlast. subst r. exists w'. split; [exact Hrun |].
    rewrite Htrace. now rewrite Nat.add_1_r.
  - intros e Hall Hend.
    assert (k' = 3) as ->.
    { destruct (Nat.eq_dec k' 3) as [Heq | Hne]; [exact Heq |].
      destruct (Hall k' ltac:(lia)) as [e' He']. rewrite He' in Hlast.
      now destruct Hlast as [-> _]. }
    change (Z.to_nat 3) with 3 in Hend. rewrite Hend in Hlast.
    destruct Hlast as [_ ->]. exists w'. split; [exact Hrun |].
    rewrite Htrace. reflexivity.
Qed.

Lemma retry_until_success_or_exhaustion_witness :
  exists w',
    _make_request sample_analyzer "POST" "projects/p/locations/l/corpora" None 0
                  sample_world
    = (Ok (creation_response "projects/p/locations/l/corpora/c42"), w')
    /\ trace w'
       = trace sample_world
         ++ repeat (request_event sample_analyzer "POST"
                      "projects/p/locations/l/corpora" None) (1 + 1).
Proof.
  apply (proj1 (proj2 (proj2
           (retry_until_success_or_exhaustion sample_analyzer "POST"
              "projects/p/locations/l/corpora" None sample_world
              (or_introl eq_refl)))) 1).
  - vm_compute. discriminate.
  - intros [|i] Hi; [| lia]. exists (HTTPError 503). reflexivity.
  - reflexivity.
Defined.

(** C9: with a method other than "POST" and "GET" the request function
    sends nothing and fails with the unbound-variable error on [response];
    that error is not a request failure, so there is no retry and no
    terminal "failed after retries" error. *)
Theorem other_method_unbound self method endpoint data retry_count w :
  method <> "POST" -> method <> "GET" ->
  _make_request self method endpoint data retry_count w
  = (Raise (UnboundLocalError "response"), w).
Proof. exact (make_request_unbound self method endpoint data retry_count w). Qed.

Lemma other_method_unbound_witness :
  _make_request sample_analyzer "PUT" "projects/p/locations/l/corpora" None 0
                sample_world
  = (Raise (UnboundLocalError "response"), sample_world).
Proof.
  apply other_method_unbound; discriminate.
Defined.

(** C10: the self-recursive retry ends for every call.  A call at counter
    [c] recurses only when [c < MAX_RETRIES], and then at counter [c + 1];
    started at 0 it makes k <= MAX_RETRIES recursive calls, whose warnings
    carry the counters 0, 1, ..., k-1, and at most k + 1 <= MAX_RETRIES + 1
    attempts in all. *)
Theorem make_request_terminates self method endpoint data w :
  (forall c w0,
      _make_request self method endpoint data c w0 =
      match try_block self method endpoint data w0 with
      | (Raise (RequestException e), w1) =>
          if (c <? config.MAX_RETRIES)%Z
          then _make_request self method endpoint data (c + 1)
                 (write_log WARNING (retry_warning c) w1)
          else (Raise (RequestFailed config.MAX_RETRIES e), w1)
      | other => other
      end)
  /\ exists (k attempts : nat) r w',
       _make_request self method endpoint data 0 w = (r, w')
       /\ (Z.of_nat k <= config.MAX_RETRIES)%Z
       /\ attempts <= k + 1
       /\ (Z.of_nat attempts <= config.MAX_RETRIES + 1)%Z
       /\ trace w' = trace w ++ repeat (request_event self method endpoint data) attempts
       /\ log w' = log w ++ retry_warnings 0 k.
Proof.
  split; [intros c w0; apply make_request_unfold |].
  destruct (String.eqb_spec method "POST") as [HP | HP];
    [| destruct (String.eqb_spec method "GET") as [HG | HG]].
  3: { exists 0, 0. eexists _, _.
       split; [apply make_request_unbound; assumption |].
       unfold retry_warnings, config.MAX_RETRIES. simpl. rewrite !app_nil_r.
       repeat split; lia. }
  all: assert (Hm : method = "POST" \/ method = "GET") by (subst; auto);
    destruct (make_request_run self method endpoint data Hm _ 0%Z w eq_refl)
      as (k & r & w' & Hrun & Hk & Htrace & Hlog & _);
    change (retries_left 0) with 3 in Hk;
    exists k, (S k), r, w'; unfold config.MAX_RETRIES;
    repeat split; try assumption; lia.
Qed.

(** ** Base names and remote paths *)

Lemma rfind_absent (c : ascii) (s : string) :
  PyStr.occurs c s = false -> PyStr.rfind c s = (-1)%Z.
Proof.
  induction s as [|a s IH]; simpl; [reflexivity |].
  intros H. apply orb_false_iff in H. destruct H as [Ha Hs].
  rewrite (IH Hs), Ha. reflexivity.
Qed.

(** The last separator of [p ++ "/" ++ s] is the one shown when [s] has none. *)
Lemma rfind_last_sep (c : ascii) (p s : string) :
  PyStr.occurs c s = false ->
  PyStr.rfind c (p ++ String c s) = Z.of_nat (String.length p).
Proof.
  intros Hs. induction p as [|a p IH].
  - simpl. rewrite (rfind_absent _ _ Hs), Ascii.eqb_refl. reflexivity.
  - cbn [append PyStr.rfind String.length]. rewrite IH.
    destruct (Z.leb_spec 0 (Z.of_nat (String.length p))); lia.
Qed.

Lemma drop_append (p s : string) : PyStr.drop (String.length p) (p ++ s) = s.
Proof. induction p as [|a p IH]; simpl; [now destruct s | exact IH]. Qed.

Lemma basename_after_sep (p s : string) :
  PyStr.occurs os_path.sep s = false ->
  os_path.basename (p ++ String os_path.sep s) = s.
Proof.
  intros Hs. unfold os_path.basename. rewrite (rfind_last_sep _ _ _ Hs).
  replace (Z.to_nat (Z.of_nat (String.length p) + 1))
    with (String.length (p ++ String os_path.sep "")).
  - replace (p ++ String os_path.sep s)%string
      with ((p ++ String os_path.sep "") ++ s)%string.
    + apply drop_append.
    + now rewrite append_assoc.
  - rewrite length_append. simpl. lia.
Qed.

Lemma basename_plain (s : string) :
  PyStr.occurs os_path.sep s = false -> os_path.basename s = s.
Proof.
  intros Hs. unfold os_path.basename. rewrite (rfind_absent _ _ Hs). reflexivity.
Qed.

(** A string with a separator ends in a separator-free tail after one. *)
Lemma split_at_last_sep (c : ascii) (s : string) :
  PyStr.occurs c s = true ->
  exists p t, s = (p ++ String c t)%string /\ PyStr.occurs c t = false.
Proof.
  induction s as [|a s IH]; simpl; [discriminate |].
  intros H. destruct (PyStr.occurs c s) eqn:Hs.
  - destruct (IH eq_refl) as (p & t & -> & Ht). now exists (String a p), t.
  - rewrite orb_false_r in H. apply Ascii.eqb_eq in H. subst a.
    now exists "", s.
Qed.

Lemma basename_has_no_sep (p : string) :
  PyStr.occurs os_path.sep (os_path.basename p) = false.
Proof.
  destruct (PyStr.occurs os_path.sep p) eqn:Hp.
  - destruct (split_at_last_sep _ _ Hp) as (q & t & -> & Ht).
    now rewrite (basename_after_sep _ _ Ht).
  - now rewrite (basename_plain _ Hp).
Qed.






(** ** The two passes over a batch *)

(** The first pass: either every file is stored and its URI collected, or
    the pass stops at the first upload that fails. *)
Lemma upload_batch_run (bucket_name : string) (batch : list string) :
  forall w,
    exists r w',
      upload_batch bucket_name batch w = (r, w')
      /\ http_replies w' = http_replies w
      /\ ((exists dates,
             length dates = length batch
             /\ r = Ok (returned_uris bucket_name (combine dates batch))
             /\ trace w' = trace w ++ stored_uploads bucket_name (combine dates batch))
          \/ (exists dates done today file rest e,
                batch = done ++ file :: rest
                /\ length dates = length done
                /\ r = Raise e
                /\ trace w' = trace w
                              ++ stored_uploads bucket_name (combine dates done)
                              ++ [upload_event bucket_name today file false])).
Proof.
  unfold upload_batch. induction batch as [|path batch IH]; intros w.
  - exists (Ok []), w. split; [reflexivity |]. split; [reflexivity |].
    left. exists []. simpl. now rewrite app_nil_r.
  - cbn [for_each]. unfold bind at 1. unfold bind at 1.
    unfold datetime_now at 1. unfold upload_to_gcs at 1. cbn [next_clock gcs_replies].
    destruct (gcs_replies w 0) as [e |] eqn:Hgcs.
    + eexists _, _. split; [reflexivity |]. split; [reflexivity |].
      right. exists [], [], (clock w 0), path, batch, e. simpl.
      repeat split; reflexivity.
    + match goal with
      | |- context [@bind _ _ _ _ ?w1] =>
          destruct (IH w1) as (r & w' & Hrun & Hhttp & Hcases)
      end.
      unfold bind at 1. rewrite Hrun.
      destruct Hcases as [(dates & Hlen & -> & Htrace)
                         | (dates & done & today & file & rest & e & -> & Hlen & -> & Htrace)].
      * eexists _, _. split; [reflexivity |]. split; [exact Hhttp |].
        left. exists (clock w 0 :: dates). split; [simpl; lia |].
        split; [reflexivity |].
        rewrite Htrace. simpl. rewrite <- app_assoc. reflexivity.
      * eexists _, _. split; [reflexivity |]. split; [exact Hhttp |].
        right. exists (clock w 0 :: dates), (path :: done), today, file, rest, e.
        split; [reflexivity |]. split; [simpl; lia |]. split; [reflexivity |].
        rewrite Htrace. simpl. rewrite <- app_assoc. reflexivity.
Qed.

(** The second pass: the URIs are registered in order, each by one to
    [MAX_RETRIES + 1] identical requests, up to the first call that raises. *)
Lemma register_batch_run self (corpus_id : string) (gcs_uris : list string) :
  forall w,
    exists r w' attempted rest,
      register_batch self corpus_id gcs_uris w = (r, w')
      /\ trace w' = trace w ++ registration_requests self corpus_id attempted
      /\ gcs_uris = map fst attempted ++ rest
      /\ (r = Ok tt -> rest = [])
      /\ Forall (fun p => 1 <= snd p /\ (Z.of_nat (snd p) <= config.MAX_RETRIES + 1)%Z)
                attempted.
Proof.
  unfold register_batch. induction gcs_uris as [|uri gcs_uris IH]; intros w.
  - exists (Ok tt), w, [], []. simpl. rewrite app_nil_r.
    repeat split; auto.
  - cbn [for_]. unfold bind at 1. unfold bind at 1. unfold create_asset in *.
    destruct (make_request_run self "POST"
                (parent self ++ "/corpora/" ++ corpus_id ++ "/assets")%string
                (Some (asset_data uri)) (or_introl eq_refl) _ 0%Z w eq_refl)
      as (k & r1 & w1 & Hrun & Hk & Htrace & _).
    change (retries_left 0) with 3 in Hk.
    rewrite Hrun. fold (register_event self corpus_id uri) in Htrace.
    destruct r1 as [j | e].
    + unfold ret at 1. cbv beta iota.
      destruct (IH w1) as (r & w' & attempted & rest & Hrest & Htr & Huris & Hok & Hall).
      rewrite Hrest. exists r, w', ((uri, S k) :: attempted), rest.
      split; [reflexivity |]. split.
      { rewrite Htr, Htrace. unfold registration_requests. cbn [map concat fst snd].
        now rewrite <- !app_assoc. }
      split; [now rewrite Huris |]. split; [exact Hok |].
      constructor; [| exact Hall]. unfold config.MAX_RETRIES. simpl snd. lia.
    + cbv beta iota. exists (Raise e), w1, [(uri, S k)], gcs_uris.
      split; [reflexivity |]. split.
      { rewrite Htrace. unfold registration_requests. cbn [map concat fst snd].
        now rewrite app_nil_r. }
      split; [reflexivity |]. split; [discriminate |].
      constructor; [| constructor]. unfold config.MAX_RETRIES. simpl snd. lia.
Qed.




Lemma map_snd_combine {A B : Type} (l : list A) (l' : list B) :
  length l = length l' -> map snd (combine l l') = l'.
Proof.
  revert l'. induction l as [|a l IH]; intros [|b l'] Hlen; simpl in *;
    try reflexivity; try discriminate.
  f_equal. apply IH. lia.
Qed.



(** ** Identifiers *)

Lemma split_nonempty (c : ascii) (s : string) : PyStr.split c s <> [].
Proof.
  induction s as [|a s IH]; simpl; [discriminate |].
  destruct (Ascii.eqb a c); [discriminate |].
  destruct (PyStr.split c s); discriminate.
Qed.

Lemma split_plain (c : ascii) (s : string) :
  PyStr.occurs c s = false -> PyStr.split c s = [s].
Proof.
  induction s as [|a s IH]; simpl; [reflexivity |].
  intros H. apply orb_false_iff in H. destruct H as [Ha Hs].
  rewrite Ha, (IH Hs). reflexivity.
Qed.

Lemma split_append_sep (c : ascii) (p s : string) :
  PyStr.split c (p ++ String c s) = PyStr.split c p ++ PyStr.split c s.
Proof.
  induction p as [|a p IH].
  - simpl. now rewrite Ascii.eqb_refl.
  - cbn [append PyStr.split]. rewrite IH.
    destruct (Ascii.eqb a c); [reflexivity |].
    pose proof (split_nonempty c p) as Hne.
    destruct (PyStr.split c p); [contradiction | reflexivity].
Qed.

(** The segments of a split have no separator, and the last one ends the
    string. *)
Lemma last_item_split (name id : string) :
  last_item (PyStr.split os_path.sep name) = Ok id <-> final_segment name id.
Proof.
  unfold final_segment. split.
  - destruct (PyStr.occurs os_path.sep name) eqn:Hocc.
    + destruct (split_at_last_sep _ _ Hocc) as (p & t & -> & Ht).
      rewrite split_append_sep, (split_plain _ _ Ht). unfold last_item.
      rewrite rev_app_distr. simpl. intros H. injection H as <-.
      split; [exact Ht | right; now exists p].
    + rewrite (split_plain _ _ Hocc). unfold last_item. simpl.
      intros H. injection H as <-. split; [exact Hocc | now left].
  - intros [Hid [-> | [p ->]]].
    + now rewrite (split_plain _ _ Hid).
    + rewrite split_append_sep, (split_plain _ _ Hid). unfold last_item.
      now rewrite rev_app_distr.
Qed.

Lemma final_segment_exists (name : string) : exists id, final_segment name id.
Proof.
  destruct (last_item (PyStr.split os_path.sep name)) as [id | e] eqn:H.
  - exists id. now apply last_item_split.
  - unfold last_item in H. pose proof (split_nonempty os_path.sep name) as Hne.
    destruct (rev (PyStr.split os_path.sep name)) eqn:Hrev; [| discriminate].
    apply (f_equal (@rev string)) in Hrev. rewrite rev_involutive in Hrev.
    contradiction.
Qed.

(** What a successful extraction read, and what it returns. *)
Lemma extract_id_ok (response : json) (id : string) (w w' : World) :
  extract_id response w = (Ok id, w') ->
  w' = w /\ exists name, named response name /\ final_segment name id.
Proof.
  unfold extract_id, bind, lift, getitem, split_slash.
  destruct response as [| | | | | |fields]; try discriminate.
  destruct (lookup "response" fields) as [[| | | | | |inner] |] eqn:Hr; try discriminate.
  destruct (lookup "name" inner) as [[| | | |name | |] |] eqn:Hn; try discriminate.
  intros H. injection H as Hid <-. split; [reflexivity |].
  exists name. split; [now exists fields, inner | now apply last_item_split].
Qed.

Lemma bind_ok {A B : Type} (c : M A) (k : A -> M B) (w w' : World) (b : B) :
  bind c k w = (Ok b, w') ->
  exists a w1, c w = (Ok a, w1) /\ k a w1 = (Ok b, w').
Proof.
  unfold bind. destruct (c w) as [[a | e] w1]; [| discriminate].
  intros H. now exists a, w1.
Qed.

Lemma extract_id_creation (name : string) (w : World) :
  extract_id (creation_response name) w
  = (last_item (PyStr.split os_path.sep name), w).
Proof. reflexivity. Qed.

(** A POST call that returns has been answered: what it returns is the
    parsed body of the reply to its last request, and every reply before
    that one was a request failure. *)
Lemma post_returns_reply self endpoint data w j w' :
  _make_request self "POST" endpoint data 0 w = (Ok j, w') ->
  exists k,
    k <= 3
    /\ outcome (http_replies w k) = Ok j
    /\ (forall i, i < k ->
          exists e, outcome (http_replies w i) = Raise (RequestException e))
    /\ trace w' = trace w ++ repeat (request_event self "POST" endpoint data) (S k)
    /\ (forall i, http_replies w' i = http_replies w (i + S k)).
Proof.
  intros Hrun.
  destruct (make_request_run self "POST" endpoint data (or_introl eq_refl) _ 0%Z w eq_refl)
    as (k & r & w0 & Hrun0 & Hk & Htrace & _ & Hreplies & Hfailed & Hlast).
  rewrite Hrun in Hrun0. injection Hrun0 as <- <-.
  change (retries_left 0) with 3 in Hk.
  exists k. split; [exact Hk |]. split.
  { destruct (outcome (http_replies w k)) as [j' | e]; [now symmetry |].
    exfalso. destruct e; try discriminate Hlast.
    destruct Hlast as [_ Hlast]. discriminate Hlast. }
  split; [exact Hfailed |]. split; [exact Htrace | exact Hreplies].
Qed.

Lemma post_replied self endpoint data w j w' :
  _make_request self "POST" endpoint data 0 w = (Ok j, w') -> replied w j.
Proof.
  intros Hrun. apply post_returns_reply in Hrun.
  destruct Hrun as (k & Hk & Hok & _). exists k.
  split; [unfold config.MAX_RETRIES; lia | exact Hok].
Qed.

(** A run of the [try] block of [main] that ends normally, call by call:
    each call starts in the world the call before it left. *)
Lemma main_body_run (args : Args) (w w' : World) :
  main_body args w = (Ok tt, w') ->
  exists analyzer w0 corpus_response corpus_id w2 w3
         index_response index_id w4 endpoint_response endpoint_id w5
         deployed w6,
    __init__ config.PROJECT_NUMBER config.LOCATION w = (Ok analyzer, w0)
    /\ create_corpus analyzer (write_log INFO (Msg "Creating corpus...") w0)
       = (Ok corpus_response, w2)
    /\ extract_id corpus_response w2 = (Ok corpus_id, w2)
    /\ process_images analyzer (image_dir args) corpus_id (bucket args)
         (write_log INFO (Msg "Processing images...") w2)
       = (Ok tt, w3)
    /\ create_index analyzer corpus_id
         (write_log INFO (Msg "Creating index...") w3)
       = (Ok index_response, w4)
    /\ extract_id index_response w4 = (Ok index_id, w4)
    /\ create_index_endpoint analyzer
         ("logo_similarity_endpoint_" ++ strftime_Ymd (clock w4 0))
         "Endpoint for logo similarity search"
         (next_clock (write_log INFO (Msg "Creating index endpoint...") w4))
       = (Ok endpoint_response, w5)
    /\ extract_id endpoint_response w5 = (Ok endpoint_id, w5)
    /\ deploy_index analyzer endpoint_id corpus_id index_id
         (write_log INFO (Msg "Deploying index...") w5)
       = (Ok deployed, w6)
    /\ w' = write_log INFO (Msg "Processing completed successfully!")
              (if truthy (spreadsheet_id args)
               then write_log INFO (Msg "Saving results to spreadsheet...") w6
               else w6).
Proof.
  intros Hrun. unfold main_body in Hrun.
  apply bind_ok in Hrun. destruct Hrun as (analyzer & w0 & Hinit & Hrun).
  apply bind_ok in Hrun. destruct Hrun as ([] & w1 & Hlog1 & Hrun).
  injection Hlog1 as <-.
  apply bind_ok in Hrun. destruct Hrun as (corpus_response & w2 & Hcorpus & Hrun).
  apply bind_ok in Hrun. destruct Hrun as (corpus_id & w2' & Hcid & Hrun).
  pose proof (extract_id_ok _ _ _ _ Hcid) as [-> _].
  apply bind_ok in Hrun. destruct Hrun as ([] & w2l & Hlog2 & Hrun).
  injection Hlog2 as <-.
  apply bind_ok in Hrun. destruct Hrun as ([] & w3 & Himages & Hrun).
  apply bind_ok in Hrun. destruct Hrun as ([] & w3l & Hlog3 & Hrun).
  injection Hlog3 as <-.
  apply bind_ok in Hrun. destruct Hrun as (index_response & w4 & Hindex & Hrun).
  apply bind_ok in Hrun. destruct Hrun as (index_id & w4' & Hiid & Hrun).
  pose proof (extract_id_ok _ _ _ _ Hiid) as [-> _].
  apply bind_ok in Hrun. destruct Hrun as ([] & w4l & Hlog4 & Hrun).
  injection Hlog4 as <-.
  apply bind_ok in Hrun. destruct Hrun as (today & w4c & Hnow & Hrun).
  injection Hnow as <- <-.
  apply bind_ok in Hrun. destruct Hrun as (endpoint_response & w5 & Hendpoint & Hrun).
  apply bind_ok in Hrun. destruct Hrun as (endpoint_id & w5' & Heid & Hrun).
  pose proof (extract_id_ok _ _ _ _ Heid) as [-> _].
  apply bind_ok in Hrun. destruct Hrun as ([] & w5l & Hlog5 & Hrun).
  injection Hlog5 as <-.
  apply bind_ok in Hrun. destruct Hrun as (deployed & w6 & Hdeploy & Hrun).
  assert (Hend : w' = write_log INFO (Msg "Processing completed successfully!")
                        (if truthy (spreadsheet_id args)
                         then write_log INFO (Msg "Saving results to spreadsheet...") w6
                         else w6)).
  { unfold bind, logger, ret in Hrun.
    destruct (truthy (spreadsheet_id args)); injection Hrun as <-; reflexivity. }
  exists analyzer, w0, corpus_response, corpus_id, w2, w3,
    index_response, index_id, w4, endpoint_response, endpoint_id, w5, deployed, w6.
  repeat (split; [assumption |]). exact Hend.
Qed.

(** C6: from a creation response [{"response": {"name": <path>}}] the driver
    extracts exactly the final slash-separated segment of the path
    ("bar123" for ".../foo/bar123"), and a path has one final segment only.
    Every run of the driver from [w] that ends normally in [w'] is a chain of
    calls, each made in the world the call before it left: the analyzer is
    built in [w]; each of the three creation calls returns the parsed body of
    a reply of the service; the corpus, index and endpoint identifiers are
    the final segments of the names in those three bodies; they are the
    identifiers passed to the image stage, to the index creation and to the
    deployment; and [w'] is the world the deployment left, but for the
    closing log lines. *)
Theorem identifiers_extracted_from_responses (args : Args) (w : World) :
  (forall name w0,
      exists id,
        extract_id (creation_response name) w0 = (Ok id, w0)
        /\ final_segment name id)
  /\ (forall path w0,
        extract_id (creation_response (path ++ "/foo/bar123")) w0
        = (Ok "bar123", w0))
  /\ (forall name id id',
        final_segment name id -> final_segment name id' -> id = id')
  /\ (forall w',
        main_body args w = (Ok tt, w') ->
        exists analyzer corpus_response corpus_name corpus_id
               index_response index_name index_id
               endpoint_response endpoint_name endpoint_id deployed
               w0 w2 w3 w4 w5 w6,
          __init__ config.PROJECT_NUMBER config.LOCATION w = (Ok analyzer, w0)
          /\ create_corpus analyzer (write_log INFO (Msg "Creating corpus...") w0)
             = (Ok corpus_response, w2)
          /\ replied w0 corpus_response
          /\ named corpus_response corpus_name
          /\ final_segment corpus_name corpus_id
          /\ process_images analyzer (image_dir args) corpus_id (bucket args)
               (write_log INFO (Msg "Processing images...") w2)
             = (Ok tt, w3)
          /\ create_index analyzer corpus_id
               (write_log INFO (Msg "Creating index...") w3)
             = (Ok index_response, w4)
          /\ replied w3 index_response
          /\ named index_response index_name
          /\ final_segment index_name index_id
          /\ create_index_endpoint analyzer
               ("logo_similarity_endpoint_" ++ strftime_Ymd (clock w4 0))
               "Endpoint for logo similarity search"
               (next_clock (write_log INFO (Msg "Creating index endpoint...") w4))
             = (Ok endpoint_response, w5)
          /\ replied w4 endpoint_response
          /\ named endpoint_response endpoint_name
          /\ final_segment endpoint_name endpoint_id
          /\ deploy_index analyzer endpoint_id corpus_id index_id
               (write_log INFO (Msg "Deploying index...") w5)
             = (Ok deployed, w6)
          /\ w' = write_log INFO (Msg "Processing completed successfully!")
                    (if truthy (spreadsheet_id args)
                     then write_log INFO (Msg "Saving results to spreadsheet...") w6
                     else w6)).
Proof.
  split.
  { intros name w0. destruct (final_segment_exists name) as [id Hid].
    exists id. split; [| exact Hid].
    rewrite extract_id_creation. apply last_item_split in Hid. now rewrite Hid. }
  split.
  { intros path w0. rewrite extract_id_creation.
    assert (H : final_segment (path ++ "/foo/bar123") "bar123").
    { split; [reflexivity |]. right. exists (path ++ "/foo")%string.
      now rewrite append_assoc. }
    apply last_item_split in H. now rewrite H. }
  split.
  { intros name id id' H H'. apply last_item_split in H, H'. congruence. }
  intros w' Hrun.
  destruct (main_body_run args w w' Hrun)
    as (analyzer & w0 & corpus_response & corpus_id & w2 & w3
        & index_response & index_id & w4 & endpoint_response & endpoint_id & w5
        & deployed & w6
        & Hinit & Hcorpus & Hcid & Himages & Hindex & Hiid & Hendpoint & Heid
        & Hdeploy & Hend).
  apply extract_id_ok in Hcid. destruct Hcid as (_ & corpus_name & Hcn & Hcs).
  apply extract_id_ok in Hiid. destruct Hiid as (_ & index_name & Hin & His).
  apply extract_id_ok in Heid. destruct Heid as (_ & endpoint_name & Hen & Hes).
  pose proof (post_replied _ _ _ _ _ _ Hcorpus) as Hr1.
  pose proof (post_replied _ _ _ _ _ _ Hindex) as Hr2.
  pose proof (post_replied _ _ _ _ _ _ Hendpoint) as Hr3.
  exists analyzer, corpus_response, corpus_name, corpus_id,
    index_response, index_name, index_id,
    endpoint_response, endpoint_name, endpoint_id, deployed,
    w0, w2, w3, w4, w5, w6.
  split; [exact Hinit |]. split; [exact Hcorpus |]. split; [exact Hr1 |].
  split; [exact Hcn |]. split; [exact Hcs |]. split; [exact Himages |].
  split; [exact Hindex |]. split; [exact Hr2 |].
  split; [exact Hin |]. split; [exact His |]. split; [exact Hendpoint |].
  split; [exact Hr3 |].
  split; [exact Hen |]. split; [exact Hes |]. split; [exact Hdeploy | exact Hend].
Qed.

(** ** The result sink *)

Lemma existsb_eqb_in (k : string) (l : list string) :
  existsb (String.eqb k) l = true <-> In k l.
Proof.
  rewrite existsb_exists. split.
  - intros (x & Hx & Heq). apply String.eqb_eq in Heq. now subst.
  - intros H. exists k. split; [exact H | apply String.eqb_refl].
Qed.

(** Keys that are all new are appended in their order. *)
Lemma add_new_keys (ks seen : list string) :
  NoDup ks -> (forall k, In k ks -> ~ In k seen) ->
  fold_left (fun acc k => if existsb (String.eqb k) acc then acc else acc ++ [k])
            ks seen
  = seen ++ ks.
Proof.
  revert seen. induction ks as [|k ks IH]; intros seen Hnd Hnew; simpl.
  - now rewrite app_nil_r.
  - inversion Hnd as [|? ? Hk Hks]; subst.
    destruct (existsb (String.eqb k) seen) eqn:Hex.
    + apply existsb_eqb_in in Hex. exfalso. apply (Hnew k); [now left | exact Hex].
    + rewrite IH; [now rewrite <- app_assoc | exact Hks |].
      intros k' Hin Hseen. apply in_app_or in Hseen.
      destruct Hseen as [Hseen | [<- | []]].
      * apply (Hnew k'); [now right | exact Hseen].
      * contradiction.
Qed.

(** Keys that are all known change nothing. *)
Lemma add_known_keys (ks seen : list string) :
  (forall k, In k ks -> In k seen) ->
  fold_left (fun acc k => if existsb (String.eqb k) acc then acc else acc ++ [k])
            ks seen
  = seen.
Proof.
  induction ks as [|k ks IH]; intros Hknown; simpl; [reflexivity |].
  rewrite (proj2 (existsb_eqb_in k seen)) by (apply Hknown; now left).
  apply IH. intros k' Hin. apply Hknown. now right.
Qed.

Lemma columns_of_uniform (first : row) (others : list row) :
  Forall (uniform (map fst first)) (first :: others) ->
  DataFrame_columns (first :: others) = map fst first.
Proof.
  intros Hall. inversion Hall as [|? ? [Hnd _] Hothers]; subst.
  unfold DataFrame_columns. simpl. unfold add_keys at 2.
  rewrite add_new_keys by (auto; intros k _ []). simpl. clear Hall.
  induction Hothers as [|r others [_ Hkeys] _ IH]; simpl; [reflexivity |].
  unfold add_keys at 2. rewrite add_known_keys; [exact IH |].
  intros k Hk. now apply Hkeys.
Qed.

Lemma lookup_present (k : string) (r : row) :
  In k (map fst r) -> exists v, lookup k r = Some v.
Proof.
  induction r as [|[k' v'] r IH]; simpl; [intros [] |].
  intros [-> | Hin].
  - rewrite String.eqb_refl. now exists v'.
  - destruct (String.eqb k' k); [now exists v' | now apply IH].
Qed.

Lemma values_of_uniform (header : list string) (r : row) :
  (forall k, In k header -> In k (map fst r)) ->
  Forall2 (fun k v => lookup k r = Some v) header
    (map (fun c => match lookup c r with Some v => v | None => nan end) header).
Proof.
  induction header as [|k header IH]; intros Hkeys; simpl; constructor.
  - destruct (lookup_present k r) as [v ->]; [apply Hkeys; now left | reflexivity].
  - apply IH. intros k' Hin. apply Hkeys. now right.
Qed.

(** C7: for a non-empty list of rows that share the field names of the
    first row, the sink makes exactly one update call on the target range,
    whose payload is the header -- the field names of the first row, in
    order -- followed by one list per record holding the record's values in
    the order of the header. *)
Theorem sheet_payload (first : row) (others : list row)
    (spreadsheet_id range_name credentials : string) (w : World) :
  Forall (uniform (map fst first)) (first :: others) ->
  exists records,
    trace (snd (save_to_spreadsheet (first :: others) spreadsheet_id range_name
                                    credentials w))
    = trace w ++ [EvSheetUpdate spreadsheet_id range_name "RAW"
                                (map CStr (map fst first) :: records)]
    /\ Forall2
         (fun r values => Forall2 (fun k v => lookup k r = Some v) (map fst first) values)
         (first :: others) records.
Proof.
  intros Hall.
  exists (DataFrame_values (first :: others)). split.
  - unfold save_to_spreadsheet. rewrite (columns_of_uniform _ _ Hall).
    destruct (sheets_replies w 0); reflexivity.
  - unfold DataFrame_values. rewrite (columns_of_uniform _ _ Hall).
    induction Hall as [|r rows [_ Hkeys] _ IH]; simpl; constructor.
    + apply values_of_uniform. intros k Hk. now apply Hkeys.
    + exact IH.
Qed.

Lemma sheet_payload_witness :
  exists records,
    trace (snd (save_to_spreadsheet sample_rows "sheet-123" "Sheet1!A1" "key.json"
                                    sample_world))
    = trace sample_world
      ++ [EvSheetUpdate "sheet-123" "Sheet1!A1" "RAW"
            ([CStr "Query Image"; CStr "Similar Image"; CStr "Similarity Score"]
             :: records)]
    /\ Forall2
         (fun r values =>
            Forall2 (fun k v => lookup k r = Some v)
                    ["Query Image"; "Similar Image"; "Similarity Score"] values)
         sample_rows records.
Proof.
  apply (sheet_payload
           [("Query Image", CStr "q.png"); ("Similar Image", CStr "a.png");
            ("Similarity Score", CFloat "0.93")]
           [[("Query Image", CStr "q.png"); ("Similar Image", CStr "b.png");
             ("Similarity Score", CFloat "0.71")]]
           "sheet-123" "Sheet1!A1" "key.json" sample_world).
  repeat (apply Forall_cons; [split |]); try apply Forall_nil;
    try (intros k; simpl; tauto);
    simpl; repeat (apply NoDup_cons; [simpl; intuition discriminate |]);
    apply NoDup_nil.
Defined.

(** The payload of the scenario, computed. *)
Example sheet_payload_scenario :
  trace (snd (save_to_spreadsheet sample_rows "sheet-123" config.SPREADSHEET_RANGE
                                  "key.json" sample_world))
  = [EvSheetUpdate "sheet-123" "Sheet1!A1" "RAW"
       [[CStr "Query Image"; CStr "Similar Image"; CStr "Similarity Score"];
        [CStr "q.png"; CStr "a.png"; CFloat "0.93"];
        [CStr "q.png"; CStr "b.png"; CFloat "0.71"]]].
Proof. reflexivity. Qed.

(** ** The optional last stage *)

Section EmitsOnly.

Variable P : event -> bool.

Lemma emits_nothing {A : Type} (c : M A) :
  (forall w, trace (snd (c w)) = trace w) -> emits_only P c.
Proof. intros H w. exists []. now rewrite H, app_nil_r. Qed.

Lemma emits_only_bind {A B : Type} (c : M A) (k : A -> M B) :
  emits_only P c -> (forall a, emits_only P (k a)) -> emits_only P (bind c k).
Proof.
  intros Hc Hk w. destruct (Hc w) as (evs1 & Ht1 & HP1). unfold bind.
  destruct (c w) as [[a | e] w1]; simpl in Ht1.
  - destruct (Hk a w1) as (evs2 & Ht2 & HP2). exists (evs1 ++ evs2).
    split; [now rewrite Ht2, Ht1, app_assoc | now rewrite forallb_app, HP1, HP2].
  - now exists evs1.
Qed.

Lemma emits_only_for_ {A : Type} (xs : list A) (body : A -> M unit) :
  (forall x, emits_only P (body x)) -> emits_only P (for_ xs body).
Proof.
  intros Hbody. induction xs as [|x xs IH]; simpl.
  - now apply emits_nothing.
  - apply emits_only_bind; [apply Hbody | intros _; exact IH].
Qed.

Lemma emits_only_for_each {A B : Type} (xs : list A) (body : A -> M B) :
  (forall x, emits_only P (body x)) -> emits_only P (for_each xs body).
Proof.
  intros Hbody. induction xs as [|x xs IH]; simpl.
  - now apply emits_nothing.
  - apply emits_only_bind; [apply Hbody | intros b].
    apply emits_only_bind; [exact IH | intros bs]. now apply emits_nothing.
Qed.

(** Whatever the method, a call sends its one request some number of times. *)
Lemma emits_only_make_request self method endpoint data c :
  P (request_event self method endpoint data) = true ->
  emits_only P (_make_request self method endpoint data c).
Proof.
  intros HP w.
  assert (Hn : exists n, trace (snd (_make_request self method endpoint data c w))
                         = trace w ++ repeat (request_event self method endpoint data) n).
  { destruct (String.eqb_spec method "POST") as [HP' | HP'];
      [| destruct (String.eqb_spec method "GET") as [HG | HG]].
    3: { exists 0. rewrite make_request_unbound by assumption.
         simpl. now rewrite app_nil_r. }
    all: assert (Hm : method = "POST" \/ method = "GET") by (subst; auto);
      destruct (make_request_run self method endpoint data Hm _ c w eq_refl)
        as (k & r & w' & Hrun & _ & Htrace & _);
      exists (S k); now rewrite Hrun. }
  destruct Hn as [n Hn]. exists (repeat (request_event self method endpoint data) n).
  split; [exact Hn |]. clear Hn.
  induction n as [|n IH]; cbn [repeat forallb]; [reflexivity |].
  now rewrite HP, IH.
Qed.

End EmitsOnly.

(** Two strings with a common end: the shorter end is an end of the longer. *)
Lemma common_end (a b stem suf : string) :
  (a ++ b)%string = (stem ++ suf)%string ->
  String.length b <= String.length suf ->
  exists t, suf = (t ++ b)%string.
Proof.
  revert stem. induction a as [|x a IH]; intros stem Heq Hlen.
  - destruct stem as [|y stem].
    + exists "". simpl in *. now subst.
    + exfalso. simpl in Heq. subst b. cbn [String.length] in Hlen.
      rewrite length_append in Hlen. lia.
  - destruct stem as [|y stem].
    + exists (String x a). simpl in Heq. now subst.
    + simpl in Heq. injection Heq as _ Heq. exact (IH stem Heq Hlen).
Qed.

(** A URL that ends with a short constant which is not an end of
    ":findNeighbors" is not a search URL. *)
Lemma not_search_url (url tail : string) :
  String.length tail <= String.length ":findNeighbors" ->
  PyStr.endswith ":findNeighbors" tail = false ->
  PyStr.endswith (url ++ tail) ":findNeighbors" = false.
Proof.
  intros Hlen Hno. destruct (PyStr.endswith (url ++ tail) ":findNeighbors") eqn:H;
    [| reflexivity].
  apply endswith_spec in H. destruct H as [stem H].
  destruct (common_end _ _ _ _ H Hlen) as [t Ht].
  assert (Hyes : PyStr.endswith ":findNeighbors" tail = true)
    by (apply endswith_spec; now exists t).
  congruence.
Qed.

Lemma request_not_search self method path tail data :
  (String.length tail <=? String.length ":findNeighbors")%nat
  && negb (PyStr.endswith ":findNeighbors" tail) = true ->
  before_last_stage (request_event self method (path ++ tail) data) = true.
Proof.
  intros H. apply andb_true_iff in H. destruct H as [Hlen Hno].
  apply Nat.leb_le in Hlen. apply negb_true_iff in Hno.
  unfold before_last_stage, request_event, request_url.
  cbn [is_search is_sheet_update].
  replace (base_url self ++ "/" ++ path ++ tail)%string
    with ((base_url self ++ "/" ++ path) ++ tail)%string
    by now rewrite !append_assoc.
  now rewrite (not_search_url _ tail Hlen Hno).
Qed.

Lemma process_images_before_last_stage batch_size self image_dir corpus_id bucket_name :
  emits_only before_last_stage
    (process_images_by batch_size self image_dir corpus_id bucket_name).
Proof.
  unfold process_images_by.
  apply emits_only_bind; [now apply emits_nothing | intros _].
  apply emits_only_bind.
  { apply emits_nothing. intros w. unfold os_walk. now destruct (fs w image_dir). }
  intros walked_. apply emits_only_bind; [now apply emits_nothing | intros starts].
  apply emits_only_for_. intros i. unfold process_batch.
  apply emits_only_bind.
  - apply emits_only_for_each. intros path.
    apply emits_only_bind; [now apply emits_nothing | intros today].
    intros w. unfold upload_to_gcs.
    destruct (gcs_replies w 0); eexists [_]; split; reflexivity.
  - intros uris. apply emits_only_for_. intros uri.
    apply emits_only_bind; [| intros _; now apply emits_nothing].
    unfold create_asset.
    replace (parent self ++ "/corpora/" ++ corpus_id ++ "/assets")%string
      with ((parent self ++ "/corpora/" ++ corpus_id) ++ "/assets")%string
      by now rewrite !append_assoc.
    apply emits_only_make_request. apply request_not_search. reflexivity.
Qed.

(** No run of [main] sends a search request or writes to a spreadsheet. *)
Lemma main_before_last_stage (args : Args) : emits_only before_last_stage (main args).
Proof.
  assert (Hbody : emits_only before_last_stage (main_body args)).
  { unfold main_body.
    apply emits_only_bind.
    { unfold __init__. apply emits_only_bind; [| intros t; now apply emits_nothing].
      intros w. unfold get_access_token.
      destruct (gcloud w) as [out | []]; eexists [_]; split; reflexivity. }
    intros analyzer. apply emits_only_bind; [now apply emits_nothing | intros _].
    apply emits_only_bind.
    { unfold create_corpus. apply emits_only_make_request.
      apply request_not_search. reflexivity. }
    intros corpus_response. apply emits_only_bind.
    { apply emits_nothing. intros w. unfold extract_id, bind, lift.
      destruct (getitem corpus_response "response") as [inner |]; [| reflexivity].
      destruct (getitem inner "name") as [name |]; [| reflexivity].
      destruct (split_slash name) as [parts |]; reflexivity. }
    intros corpus_id. apply emits_only_bind; [now apply emits_nothing | intros _].
    apply emits_only_bind; [apply process_images_before_last_stage | intros _].
    apply emits_only_bind; [now apply emits_nothing | intros _].
    apply emits_only_bind.
    { unfold create_index.
      replace (parent analyzer ++ "/corpora/" ++ corpus_id ++ "/indexes")%string
        with ((parent analyzer ++ "/corpora/" ++ corpus_id) ++ "/indexes")%string
        by now rewrite !append_assoc.
      apply emits_only_make_request. apply request_not_search. reflexivity. }
    intros index_response. apply emits_only_bind.
    { apply emits_nothing. intros w. unfold extract_id, bind, lift.
      destruct (getitem index_response "response") as [inner |]; [| reflexivity].
      destruct (getitem inner "name") as [name |]; [| reflexivity].
      destruct (split_slash name) as [parts |]; reflexivity. }
    intros index_id. apply emits_only_bind; [now apply emits_nothing | intros _].
    apply emits_only_bind; [now apply emits_nothing | intros today].
    apply emits_only_bind.
    { unfold create_index_endpoint.
      replace (parent analyzer ++ "/indexEndpoints")%string
        with ((parent analyzer ++ "/index") ++ "Endpoints")%string
        by now rewrite !append_assoc.
      apply emits_only_make_request. apply request_not_search. reflexivity. }
    intros endpoint_response. apply emits_only_bind.
    { apply emits_nothing. intros w. unfold extract_id, bind, lift.
      destruct (getitem endpoint_response "response") as [inner |]; [| reflexivity].
      destruct (getitem inner "name") as [name |]; [| reflexivity].
      destruct (split_slash name) as [parts |]; reflexivity. }
    intros endpoint_id. apply emits_only_bind; [now apply emits_nothing | intros _].
    apply emits_only_bind.
    { unfold deploy_index.
      replace (parent analyzer ++ "/indexEndpoints/" ++ endpoint_id ++ ":deployIndex")%string
        with ((parent analyzer ++ "/indexEndpoints/" ++ endpoint_id) ++ ":deployIndex")%string
        by now rewrite !append_assoc.
      apply emits_only_make_request. apply request_not_search. reflexivity. }
    intros deployed. apply emits_only_bind.
    { apply emits_nothing. intros w.
      now destruct (truthy (spreadsheet_id args)). }
    intros _. now apply emits_nothing. }
  intros w. destruct (Hbody w) as (evs & Htrace & HP). exists evs.
  split; [| exact HP]. unfold main.
  destruct (main_body args w) as [[[] | e] w']; exact Htrace.
Qed.

(** The sample run reaches the end of [main]. *)
Example sample_run_succeeds : fst (main sample_args sample_world) = Ok tt.
Proof. vm_compute. reflexivity. Qed.

(** C1, evaluated on the code: with a spreadsheet identifier on the command
    line and every remote call answered, [main] ends normally after the
    deployment having logged "Saving results to spreadsheet...", but its
    trace holds no search request and no spreadsheet update -- the stage is
    the placeholder [pass] -- and this is so in every run: whatever the
    arguments and the world, [main] adds no search request and no
    spreadsheet update to the trace. *)
Theorem search_and_save_not_performed :
  truthy (spreadsheet_id sample_args) = true
  /\ fst (main sample_args sample_world) = Ok tt
  /\ In (INFO, Msg "Saving results to spreadsheet...")
        (log (snd (main sample_args sample_world)))
  /\ existsb is_search (trace (snd (main sample_args sample_world))) = false
  /\ existsb is_sheet_update (trace (snd (main sample_args sample_world))) = false
  /\ last (trace (snd (main sample_args sample_world))) EvToken
     = request_event sample_analyzer "POST"
         (parent sample_analyzer ++ "/indexEndpoints/e9:deployIndex")
         (Some (JObj [("deployedIndex",
                       JObj [("index",
                              JStr (parent sample_analyzer
                                    ++ "/corpora/c42/indexes/i7"))])]))
  /\ (forall args w,
        exists evs,
          trace (snd (main args w)) = trace w ++ evs
          /\ forallb (fun e => negb (is_search e) && negb (is_sheet_update e)) evs
             = true).
Proof.
  split; [reflexivity |].
  split; [vm_compute; reflexivity |].
  split; [vm_compute; tauto |].
  split; [vm_compute; reflexivity |].
  split; [vm_compute; reflexivity |].
  split; [vm_compute; reflexivity |].
  intros args w. exact (main_before_last_stage args w).
Qed.

(** * Further properties of the code *)

(** ** More on the request function *)

Lemma same_surroundings_refl (w : World) : same_surroundings w w.
Proof. repeat split. Qed.

Lemma same_surroundings_trans (w1 w2 w3 : World) :
  same_surroundings w1 w2 -> same_surroundings w2 w3 -> same_surroundings w1 w3.
Proof.
  intros (A1 & A2 & A3 & A4 & A5) (B1 & B2 & B3 & B4 & B5).
  repeat split; congruence.
Qed.

Lemma try_block_surroundings self method endpoint data w :
  same_surroundings w (snd (try_block self method endpoint data w)).
Proof.
  destruct (String.eqb_spec method "POST") as [HP | HP];
    [| destruct (String.eqb_spec method "GET") as [HG | HG]].
  3: { rewrite try_block_unbound by assumption. apply same_surroundings_refl. }
  all: rewrite try_block_http by (subst; auto); repeat split.
Qed.

(** A call touches the HTTP side, the trace and the log, and nothing else. *)
Lemma make_request_surroundings self method endpoint data :
  forall n c w,
    retries_left c = n ->
    same_surroundings w (snd (_make_request self method endpoint data c w)).
Proof.
  induction n as [|n IH]; intros c w Hn; rewrite make_request_unfold;
    pose proof (try_block_surroundings self method endpoint data w) as Htry;
    destruct (try_block self method endpoint data w) as [[j | e] w1];
    cbn [snd] in Htry; try exact Htry;
    destruct e; try exact Htry;
    destruct (Z.ltb_spec c config.MAX_RETRIES) as [Hlt | Hge]; try exact Htry.
  - unfold retries_left in Hn. lia.
  - eapply same_surroundings_trans; [exact Htry |].
    eapply same_surroundings_trans; [| apply IH; unfold retries_left in *; lia].
    repeat split.
Qed.

(** X1: the handler of the request function catches request failures only.
    When the library raises anything else at the first attempt of a POST or
    GET call (for instance a [ValueError] out of [response.json()]), the call
    raises that exception at once: one request on the wire, no retry and no
    warning, whatever the retry counter. *)
Theorem other_exception_not_retried self method endpoint data retry_count w e :
  method = "POST" \/ method = "GET" ->
  outcome (http_replies w 0) = Raise e ->
  (forall failure, e <> RequestException failure) ->
  _make_request self method endpoint data retry_count w
  = (Raise e, emit (request_event self method endpoint data) (next_http w)).
Proof.
  intros Hm Ho Hother. rewrite make_request_unfold, (try_block_http _ _ _ _ _ Hm), Ho.
  destruct e; try reflexivity. now contradiction (Hother e).
Qed.

Lemma other_exception_not_retried_witness :
  _make_request sample_analyzer "POST" "projects/p/locations/l/corpora" None 0
    (scripted [Throws (ValueError "no json")] None)
  = (Raise (ValueError "no json"),
     emit (request_event sample_analyzer "POST" "projects/p/locations/l/corpora" None)
          (next_http (scripted [Throws (ValueError "no json")] None))).
Proof.
  apply other_exception_not_retried.
  - left. reflexivity.
  - reflexivity.
  - intros failure. discriminate.
Defined.

(** A call that meets only request failures uses up its retries. *)
Lemma exhausted_run self method endpoint data c w e :
  method = "POST" \/ method = "GET" ->
  (forall i, i < retries_left c ->
     exists failure, outcome (http_replies w i) = Raise (RequestException failure)) ->
  outcome (http_replies w (retries_left c)) = Raise (RequestException e) ->
  exists w',
    _make_request self method endpoint data c w
    = (Raise (RequestFailed config.MAX_RETRIES e), w')
    /\ trace w' = trace w ++ repeat (request_event self method endpoint data)
                                   (retries_left c + 1)
    /\ log w' = log w ++ retry_warnings c (retries_left c).
Proof.
  intros Hm Hall Hend.
  destruct (make_request_run self method endpoint data Hm _ c w eq_refl)
    as (k & r & w' & Hrun & Hk & Htrace & Hlog & _ & _ & Hlast).
  assert (k = retries_left c) as ->.
  { destruct (Nat.eq_dec k (retries_left c)) as [Heq | Hne]; [exact Heq |].
    destruct (Hall k ltac:(lia)) as [e' He']. rewrite He' in Hlast.
    now destruct Hlast as [-> _]. }
  rewrite Hend in Hlast. destruct Hlast as [_ ->].
  exists w'. rewrite Nat.add_1_r. now repeat split.
Qed.

(** X2: a POST or GET call that starts at retry counter [c] and meets only
    request failures makes exactly [max 0 (MAX_RETRIES - c) + 1] requests --
    a single one as soon as [c >= MAX_RETRIES], more than [MAX_RETRIES + 1]
    when [c] is negative -- logs one warning per retry, and raises the
    terminal error, which names [MAX_RETRIES] retries whatever [c] was and
    carries the last failure. *)
Theorem exhaustion_from_any_counter self method endpoint data c w e :
  method = "POST" \/ method = "GET" ->
  (forall i, i < retries_left c ->
     exists failure, outcome (http_replies w i) = Raise (RequestException failure)) ->
  outcome (http_replies w (retries_left c)) = Raise (RequestException e) ->
  exists w',
    _make_request self method endpoint data c w
    = (Raise (RequestFailed config.MAX_RETRIES e), w')
    /\ trace w' = trace w ++ repeat (request_event self method endpoint data)
                                   (Z.to_nat (Z.max 0 (config.MAX_RETRIES - c)) + 1)
    /\ log w' = log w ++ retry_warnings c (Z.to_nat (Z.max 0 (config.MAX_RETRIES - c))).
Proof.
  intros Hm Hall Hend.
  replace (Z.to_nat (Z.max 0 (config.MAX_RETRIES - c))) with (retries_left c)
    by (unfold retries_left; lia).
  now apply exhausted_run.
Qed.

Lemma exhaustion_from_any_counter_witness :
  exists w',
    _make_request sample_analyzer "GET" "projects/p/locations/l/corpora" None (-1)
      (scripted [] None)
    = (Raise (RequestFailed 3 Timeout), w')
    /\ trace w' = repeat (request_event sample_analyzer "GET"
                            "projects/p/locations/l/corpora" None) 5
    /\ log w' = retry_warnings (-1) 4.
Proof.
  apply (exhaustion_from_any_counter sample_analyzer "GET"
           "projects/p/locations/l/corpora" None (-1) (scripted [] None) Timeout).
  - right. reflexivity.
  - intros i _. exists Timeout. unfold scripted. simpl. now destruct i.
  - reflexivity.
Defined.

(** X3: a POST or GET call sends at least one request, consumes exactly one
    reply of the service per request sent, logs exactly one warning per
    request after the first, and leaves the rest of the world (object store,
    spreadsheet, clock, file system, credentials) as it found it. *)
Theorem one_reply_per_request self method endpoint data c w :
  method = "POST" \/ method = "GET" ->
  exists n r w',
    _make_request self method endpoint data c w = (r, w')
    /\ 1 <= n
    /\ trace w' = trace w ++ repeat (request_event self method endpoint data) n
    /\ (forall i, http_replies w' i = http_replies w (i + n))
    /\ log w' = log w ++ retry_warnings c (n - 1)
    /\ same_surroundings w w'.
Proof.
  intros Hm.
  destruct (make_request_run self method endpoint data Hm _ c w eq_refl)
    as (k & r & w' & Hrun & _ & Htrace & Hlog & Hreplies & _).
  exists (S k), r, w'. split; [exact Hrun |].
  split; [lia |]. split; [exact Htrace |]. split; [exact Hreplies |].
  split; [now rewrite Nat.sub_1_r |].
  pose proof (make_request_surroundings self method endpoint data _ c w eq_refl) as H.
  now rewrite Hrun in H.
Qed.

Lemma one_reply_per_request_witness :
  exists n r w',
    _make_request sample_analyzer "POST" "projects/p/locations/l/corpora" None 0
                  sample_world = (r, w')
    /\ 1 <= n
    /\ trace w' = trace sample_world
                  ++ repeat (request_event sample_analyzer "POST"
                               "projects/p/locations/l/corpora" None) n
    /\ (forall i, http_replies w' i = http_replies sample_world (i + n))
    /\ log w' = log sample_world ++ retry_warnings 0 (n - 1)
    /\ same_surroundings sample_world w'.
Proof.
  apply one_reply_per_request. left. reflexivity.
Defined.

(** ** More on identifier extraction *)

Lemma final_segment_basename (name : string) :
  final_segment name (os_path.basename name).
Proof.
  split; [apply basename_has_no_sep |].
  destruct (PyStr.occurs os_path.sep name) eqn:Hocc.
  - destruct (split_at_last_sep _ _ Hocc) as (p & t & -> & Ht).
    rewrite (basename_after_sep _ _ Ht). right. now exists p.
  - left. now rewrite (basename_plain _ Hocc).
Qed.

(** The outcomes of an extraction, case by case. *)
Lemma extract_id_cases (response : json) (w : World) :
  exists r,
    extract_id response w = (r, w)
    /\ match r with
       | Ok id => exists name, named response name /\ final_segment name id
       | Raise e =>
           e = KeyError "response" \/ e = KeyError "name"
           \/ e = TypeError \/ e = AttributeError "split"
       end.
Proof.
  unfold extract_id, bind, lift, getitem, split_slash.
  destruct response as [| | | | | |fields];
    try (eexists; split; [reflexivity | cbv beta iota; tauto]).
  destruct (lookup "response" fields) as [[| | | | | |inner] |] eqn:Hr;
    try (eexists; split; [reflexivity | cbv beta iota; tauto]).
  destruct (lookup "name" inner) as [[| | | |name | |] |] eqn:Hn;
    try (eexists; split; [reflexivity | cbv beta iota; tauto]).
  destruct (final_segment_exists name) as [id Hid].
  exists (Ok id). pose proof Hid as Hlast. apply last_item_split in Hlast.
  rewrite Hlast. split; [reflexivity |].
  exists name. split; [now exists fields, inner | exact Hid].
Qed.

(** X4: whatever the response, the extraction leaves the world untouched,
    and it either returns the final segment of [response["response"]["name"]]
    or raises one of four errors: [KeyError] for a missing "response" or
    "name" key, [TypeError] when a dictionary was expected, [AttributeError]
    when the name is not a string.  It never raises [IndexError]: the list
    that [split] returns is never empty, so [[-1]] is always defined. *)
Theorem extract_id_outcomes (response : json) (w : World) :
  exists r,
    extract_id response w = (r, w)
    /\ match r with
       | Ok id => exists name, named response name /\ final_segment name id
       | Raise e =>
           e = KeyError "response" \/ e = KeyError "name"
           \/ e = TypeError \/ e = AttributeError "split"
       end.
Proof. exact (extract_id_cases response w). Qed.

(** X5: the extracted identifier of a creation response is empty exactly
    when the name is empty or ends with a slash; the driver then goes on with
    an empty identifier. *)
Theorem extract_id_empty (name : string) (w : World) :
  extract_id (creation_response name) w = (Ok "", w)
  <-> name = "" \/ PyStr.endswith name "/" = true.
Proof.
  rewrite extract_id_creation. split.
  - intros H. injection H as H. apply last_item_split in H.
    destruct H as [_ [-> | [path ->]]]; [now left | right].
    apply endswith_spec. now exists path.
  - intros H. f_equal. apply last_item_split. split; [reflexivity |].
    destruct H as [-> | H]; [now left | right].
    apply endswith_spec in H. exact H.
Qed.

(** X6: the two ways the driver takes the last component of a path agree:
    [name.split("/")[-1]], used for identifiers, returns what
    [os.path.basename(name)], used for object and asset names, returns. *)
Theorem extract_id_is_basename (name : string) (w : World) :
  extract_id (creation_response name) w = (Ok (os_path.basename name), w).
Proof.
  rewrite extract_id_creation. f_equal.
  apply last_item_split. apply final_segment_basename.
Qed.

(** ** The access token *)

Lemma lstrip_split (s : string) :
  exists a, s = (a ++ PyStr.lstrip s)%string /\ all_space a = true.
Proof.
  induction s as [|c s IH]; simpl.
  - now exists "".
  - destruct (PyStr.is_space c) eqn:Hc.
    + destruct IH as (a & Hs & Ha). exists (String c a). simpl.
      now rewrite <- Hs, Hc, Ha.
    + now exists "".
Qed.

Lemma rstrip_split (s : string) :
  exists b, s = (PyStr.rstrip s ++ b)%string /\ all_space b = true.
Proof.
  induction s as [|c s IH]; simpl.
  - now exists "".
  - destruct IH as (b & Hs & Hb).
    destruct (PyStr.rstrip s) as [|d r] eqn:Hr.
    + simpl in Hs. subst s. destruct (PyStr.is_space c) eqn:Hc.
      * exists (String c b). simpl. now rewrite Hc, Hb.
      * now exists b.
    + exists b. simpl. now rewrite Hs at 1.
Qed.

Lemma lstrip_fixed (s : string) : PyStr.lstrip (PyStr.lstrip s) = PyStr.lstrip s.
Proof.
  induction s as [|c s IH]; simpl; [reflexivity |].
  destruct (PyStr.is_space c) eqn:Hc; [exact IH |]. simpl. now rewrite Hc.
Qed.

Lemma rstrip_fixed (s : string) : PyStr.rstrip (PyStr.rstrip s) = PyStr.rstrip s.
Proof.
  induction s as [|c s IH]; simpl; [reflexivity |].
  destruct (PyStr.rstrip s) as [|d r] eqn:Hr.
  - destruct (PyStr.is_space c) eqn:Hc; simpl; [reflexivity | now rewrite Hc].
  - cbn [PyStr.rstrip] in *. now rewrite IH.
Qed.

Lemma lstrip_after_rstrip (s : string) :
  PyStr.lstrip s = s -> PyStr.lstrip (PyStr.rstrip s) = PyStr.rstrip s.
Proof.
  destruct s as [|c s]; [reflexivity |]. simpl.
  destruct (PyStr.is_space c) eqn:Hc.
  - intros H. exfalso.
    destruct (lstrip_split s) as (a & Hs & _).
    apply (f_equal String.length) in H. rewrite Hs in H at 2.
    cbn [String.length] in H. rewrite length_append in H. lia.
  - intros _. destruct (PyStr.rstrip s); simpl; now rewrite Hc.
Qed.

(** X7: when [gcloud] succeeds, the token handed to the driver is its output
    with whitespace removed at both ends and nothing else changed: the
    output is the token between two runs of whitespace, and the token
    neither starts nor ends with whitespace (stripping it again changes
    nothing), so the trailing newline of the command never reaches the
    [Authorization] header. *)
Theorem token_is_stripped_output (w : World) (stdout : string) :
  gcloud w = Ok stdout ->
  exists token before after,
    get_access_token w = (Ok token, emit EvToken w)
    /\ stdout = (before ++ token ++ after)%string
    /\ all_space before = true /\ all_space after = true
    /\ PyStr.lstrip token = token /\ PyStr.rstrip token = token.
Proof.
  intros Hout. unfold get_access_token. rewrite Hout.
  destruct (lstrip_split stdout) as (before & Hl & Hbefore).
  destruct (rstrip_split (PyStr.lstrip stdout)) as (after & Hr & Hafter).
  exists (PyStr.strip stdout), before, after. unfold PyStr.strip.
  split; [reflexivity |].
  split; [now rewrite <- Hr |].
  split; [exact Hbefore |]. split; [exact Hafter |].
  split; [apply lstrip_after_rstrip, lstrip_fixed | apply rstrip_fixed].
Qed.

Lemma token_is_stripped_output_witness :
  exists token before after,
    get_access_token
      (with_gcloud (Ok ("ya29.token" ++ String "010"%char EmptyString)%string) sample_world)
    = (Ok token,
       emit EvToken
         (with_gcloud (Ok ("ya29.token" ++ String "010"%char EmptyString)%string) sample_world))
    /\ ("ya29.token" ++ String "010"%char EmptyString)%string
       = (before ++ token ++ after)%string
    /\ all_space before = true /\ all_space after = true
    /\ PyStr.lstrip token = token /\ PyStr.rstrip token = token.
Proof.
  apply (token_is_stripped_output
           (with_gcloud (Ok ("ya29.token" ++ String "010"%char EmptyString)%string) sample_world)
           ("ya29.token" ++ String "010"%char EmptyString)%string).
  reflexivity.
Defined.

(** The newline that ends the output of the command is dropped. *)
Example token_without_newline :
  fst (get_access_token
         (with_gcloud (Ok ("ya29.token" ++ String "010"%char EmptyString)%string) sample_world))
  = Ok "ya29.token".
Proof. reflexivity. Qed.

(** ** The driver as a whole *)

Lemma main_body_stages (args : Args) :
  main_body args
  = bind (__init__ config.PROJECT_NUMBER config.LOCATION)
         (fun analyzer => driver_stages analyzer args).
Proof. reflexivity. Qed.

Lemma init_with_token (w : World) (stdout : string) :
  gcloud w = Ok stdout ->
  __init__ config.PROJECT_NUMBER config.LOCATION w
  = (Ok (analyzer_with (PyStr.strip stdout)), emit EvToken w).
Proof.
  intros H. unfold __init__, bind, get_access_token, ret. now rewrite H.
Qed.

(** X8: a failure to obtain the access token ends the run at once.  [main]
    raises -- the wrapped "failed to get access token" error when [gcloud]
    exits with an error, the original exception otherwise -- after the
    [gcloud] call alone: no request, no upload, no retry, and one error line
    in the log. *)
Theorem token_failure_is_terminal (args : Args) (w : World) (e : exception) :
  gcloud w = Raise e ->
  let raised := match e with CalledProcessError => TokenFailure | _ => e end in
  main args w = (Raise raised, write_log ERROR (MsgExc "An error occurred: " raised) (emit EvToken w)).
Proof.
  intros H raised. unfold main, main_body, bind, __init__, get_access_token, bind.
  rewrite H. subst raised. destruct e; reflexivity.
Qed.

Lemma token_failure_is_terminal_witness :
  main sample_args (with_gcloud (Raise CalledProcessError) sample_world)
  = (Raise TokenFailure,
     write_log ERROR (MsgExc "An error occurred: " TokenFailure)
       (emit EvToken (with_gcloud (Raise CalledProcessError) sample_world))).
Proof.
  apply (token_failure_is_terminal sample_args
           (with_gcloud (Raise CalledProcessError) sample_world) CalledProcessError).
  reflexivity.
Defined.

Section LogsOnly.

Variable Q : level * message -> bool.

Lemma logs_nothing {A : Type} (c : M A) :
  (forall w, log (snd (c w)) = log w) -> logs_only Q c.
Proof. intros H w. exists []. now rewrite H, app_nil_r. Qed.

Lemma logs_only_bind {A B : Type} (c : M A) (k : A -> M B) :
  logs_only Q c -> (forall a, logs_only Q (k a)) -> logs_only Q (bind c k).
Proof.
  intros Hc Hk w. destruct (Hc w) as (ls1 & Hl1 & HQ1). unfold bind.
  destruct (c w) as [[a | e] w1]; simpl in Hl1.
  - destruct (Hk a w1) as (ls2 & Hl2 & HQ2). exists (ls1 ++ ls2).
    split; [now rewrite Hl2, Hl1, app_assoc | now rewrite forallb_app, HQ1, HQ2].
  - now exists ls1.
Qed.

Lemma logs_only_for_ {A : Type} (xs : list A) (body : A -> M unit) :
  (forall x, logs_only Q (body x)) -> logs_only Q (for_ xs body).
Proof.
  intros Hbody. induction xs as [|x xs IH]; simpl.
  - now apply logs_nothing.
  - apply logs_only_bind; [apply Hbody | intros _; exact IH].
Qed.

Lemma logs_only_for_each {A B : Type} (xs : list A) (body : A -> M B) :
  (forall x, logs_only Q (body x)) -> logs_only Q (for_each xs body).
Proof.
  intros Hbody. induction xs as [|x xs IH]; simpl.
  - now apply logs_nothing.
  - apply logs_only_bind; [apply Hbody | intros b].
    apply logs_only_bind; [exact IH | intros bs]. now apply logs_nothing.
Qed.

Lemma logs_only_logger (l : level) (msg : message) :
  Q (l, msg) = true -> logs_only Q (logger l msg).
Proof. intros H w. exists [(l, msg)]. simpl. now rewrite H. Qed.

End LogsOnly.

(** The request function logs retry warnings and nothing else. *)
Lemma make_request_logs_warnings self method endpoint data c :
  logs_only (fun l => match fst l with WARNING => true | _ => false end)
            (_make_request self method endpoint data c).
Proof.
  intros w.
  assert (H : exists k, log (snd (_make_request self method endpoint data c w))
                        = log w ++ retry_warnings c k).
  { destruct (String.eqb_spec method "POST") as [HP | HP];
      [| destruct (String.eqb_spec method "GET") as [HG | HG]].
    3: { exists 0. rewrite make_request_unbound by assumption.
         unfold retry_warnings. simpl. now rewrite app_nil_r. }
    all: assert (Hm : method = "POST" \/ method = "GET") by (subst; auto);
      destruct (make_request_run self method endpoint data Hm _ c w eq_refl)
        as (k & r & w' & Hrun & _ & _ & Hlog & _);
      exists k; now rewrite Hrun. }
  destruct H as [k H]. exists (retry_warnings c k). split; [exact H |].
  unfold retry_warnings. apply forallb_forall. intros l Hl.
  apply in_map_iff in Hl. now destruct Hl as (i & <- & _).
Qed.

Lemma logs_only_weaken (Q Q' : level * message -> bool) {A : Type} (c : M A) :
  (forall l, Q l = true -> Q' l = true) -> logs_only Q c -> logs_only Q' c.
Proof.
  intros Himp Hc w. destruct (Hc w) as (ls & Hl & HQ). exists ls.
  split; [exact Hl |]. rewrite forallb_forall in *. auto.
Qed.

Lemma make_request_logs_progress self method endpoint data c :
  logs_only is_progress_line (_make_request self method endpoint data c).
Proof.
  eapply logs_only_weaken; [| apply make_request_logs_warnings].
  intros [[] msg]; simpl; congruence.
Qed.

Lemma extract_id_logs_progress (response : json) :
  logs_only is_progress_line (extract_id response).
Proof.
  apply logs_nothing. intros w.
  destruct (extract_id_cases response w) as (r & -> & _). reflexivity.
Qed.

Lemma process_images_logs_progress batch_size self image_dir corpus_id bucket_name :
  logs_only is_progress_line
    (process_images_by batch_size self image_dir corpus_id bucket_name).
Proof.
  unfold process_images_by.
  apply logs_only_bind; [now apply logs_only_logger | intros _].
  apply logs_only_bind.
  { apply logs_nothing. intros w. unfold os_walk. now destruct (fs w image_dir). }
  intros walked_. apply logs_only_bind.
  { apply logs_nothing. intros w. reflexivity. }
  intros starts. apply logs_only_for_. intros i. unfold process_batch.
  apply logs_only_bind.
  - apply logs_only_for_each. intros path.
    apply logs_only_bind; [now apply logs_nothing | intros today].
    apply logs_nothing. intros w. unfold upload_to_gcs.
    now destruct (gcs_replies w 0).
  - intros uris. apply logs_only_for_. intros uri.
    apply logs_only_bind; [| intros _; now apply logs_nothing].
    apply make_request_logs_progress.
Qed.

Lemma announces_success_bind {A B : Type} (c : M A) (k : A -> M B) :
  logs_only is_progress_line c ->
  (forall a, announces_success (k a)) ->
  announces_success (bind c k).
Proof.
  intros Hc Hk w. destruct (Hc w) as (ls1 & Hl1 & HQ1). unfold bind.
  destruct (c w) as [[a | e] w1]; simpl in Hl1.
  - destruct (Hk a w1) as (ls2 & HQ2 & Hl2). exists (ls1 ++ ls2).
    split; [now rewrite forallb_app, HQ1, HQ2 |].
    now rewrite Hl2, Hl1, <- !app_assoc.
  - exists ls1. simpl. now rewrite app_nil_r.
Qed.

Lemma driver_stages_announce_success (analyzer : LogoSimilarityAnalyzer) (args : Args) :
  announces_success (driver_stages analyzer args).
Proof.
  unfold driver_stages.
  apply announces_success_bind; [now apply logs_only_logger | intros _].
  apply announces_success_bind; [apply make_request_logs_progress | intros corpus_response].
  apply announces_success_bind; [apply extract_id_logs_progress | intros corpus_id].
  apply announces_success_bind; [now apply logs_only_logger | intros _].
  apply announces_success_bind; [apply process_images_logs_progress | intros _].
  apply announces_success_bind; [now apply logs_only_logger | intros _].
  apply announces_success_bind; [apply make_request_logs_progress | intros index_response].
  apply announces_success_bind; [apply extract_id_logs_progress | intros index_id].
  apply announces_success_bind; [now apply logs_only_logger | intros _].
  apply announces_success_bind; [now apply logs_nothing | intros today].
  apply announces_success_bind; [apply make_request_logs_progress | intros endpoint_response].
  apply announces_success_bind; [apply extract_id_logs_progress | intros endpoint_id].
  apply announces_success_bind; [now apply logs_only_logger | intros _].
  apply announces_success_bind; [apply make_request_logs_progress | intros deployed].
  apply announces_success_bind.
  { destruct (truthy (spreadsheet_id args));
      [now apply logs_only_logger | now apply logs_nothing]. }
  intros _ w. exists []. split; reflexivity.
Qed.

(** X9: the log of a run tells how it ended.  Whatever the arguments and the
    world, [main] returns what its [try] block returned, and the lines it
    adds to the log are progress lines (no error line, no announcement of
    success) followed by exactly one closing line: "Processing completed
    successfully!" when it ends normally, "An error occurred: ..." with the
    exception it raises again otherwise. *)
Theorem log_tells_the_outcome (args : Args) (w : World) :
  fst (main args w) = fst (main_body args w)
  /\ exists progress,
       forallb is_progress_line progress = true
       /\ log (snd (main args w))
          = log w ++ progress
            ++ [match fst (main args w) with
                | Ok _ => success_line
                | Raise e => error_line e
                end].
Proof.
  assert (Hbody : announces_success (main_body args)).
  { rewrite main_body_stages. apply announces_success_bind.
    - apply logs_nothing. intros w0. unfold __init__, bind, get_access_token.
      destruct (gcloud w0) as [out | []]; reflexivity.
    - intros analyzer. apply driver_stages_announce_success. }
  destruct (Hbody w) as (progress & HQ & Hlog). unfold main.
  destruct (main_body args w) as [[[] | e] w'] eqn:Hrun; simpl in *.
  - split; [reflexivity |]. now exists progress.
  - split; [reflexivity |]. exists progress. split; [exact HQ |].
    rewrite Hlog, app_nil_r. now rewrite <- app_assoc.
Qed.

(** The events of the image stage, under any property of uploads and of
    the registration requests of the corpus. *)
Lemma process_images_emits_only (P : event -> bool) batch_size self
    image_dir corpus_id bucket_name :
  (forall b s d stored, P (EvUpload b s d stored) = true) ->
  (forall gcs_uri, P (register_event self corpus_id gcs_uri) = true) ->
  emits_only P (process_images_by batch_size self image_dir corpus_id bucket_name).
Proof.
  intros Hup Hreq. unfold process_images_by.
  apply emits_only_bind; [now apply emits_nothing | intros _].
  apply emits_only_bind.
  { apply emits_nothing. intros w. unfold os_walk. now destruct (fs w image_dir). }
  intros walked_. apply emits_only_bind; [now apply emits_nothing | intros starts].
  apply emits_only_for_. intros i. unfold process_batch.
  apply emits_only_bind.
  - apply emits_only_for_each. intros path.
    apply emits_only_bind; [now apply emits_nothing | intros today].
    intros w. unfold upload_to_gcs.
    destruct (gcs_replies w 0); eexists [_]; (split; [reflexivity |]);
      simpl; now rewrite Hup.
  - intros uris. apply emits_only_for_. intros uri.
    apply emits_only_bind; [| intros _; now apply emits_nothing].
    unfold create_asset. apply emits_only_make_request. apply Hreq.
Qed.

Lemma extract_id_emits_nothing (P : event -> bool) (response : json) :
  emits_only P (extract_id response).
Proof.
  apply emits_nothing. intros w.
  destruct (extract_id_cases response w) as (r & -> & _). reflexivity.
Qed.

Lemma driver_stages_emits_only (P : event -> bool) analyzer args :
  (forall b s d stored, P (EvUpload b s d stored) = true) ->
  (forall rest data,
      P (request_event analyzer "POST" (parent analyzer ++ String "/" rest) data)
      = true) ->
  emits_only P (driver_stages analyzer args).
Proof.
  intros Hup Hreq. unfold driver_stages.
  apply emits_only_bind; [now apply emits_nothing | intros _].
  apply emits_only_bind.
  { unfold create_corpus. apply emits_only_make_request. exact (Hreq "corpora" _). }
  intros corpus_response.
  apply emits_only_bind; [apply extract_id_emits_nothing | intros corpus_id].
  apply emits_only_bind; [now apply emits_nothing | intros _].
  apply emits_only_bind.
  { apply process_images_emits_only; [exact Hup | intros gcs_uri].
    exact (Hreq ("corpora/" ++ corpus_id ++ "/assets")%string _). }
  intros _.
  apply emits_only_bind; [now apply emits_nothing | intros _].
  apply emits_only_bind.
  { unfold create_index. apply emits_only_make_request.
    exact (Hreq ("corpora/" ++ corpus_id ++ "/indexes")%string _). }
  intros index_response.
  apply emits_only_bind; [apply extract_id_emits_nothing | intros index_id].
  apply emits_only_bind; [now apply emits_nothing | intros _].
  apply emits_only_bind; [now apply emits_nothing | intros today].
  apply emits_only_bind.
  { unfold create_index_endpoint. apply emits_only_make_request.
    exact (Hreq "indexEndpoints" _). }
  intros endpoint_response.
  apply emits_only_bind; [apply extract_id_emits_nothing | intros endpoint_id].
  apply emits_only_bind; [now apply emits_nothing | intros _].
  apply emits_only_bind.
  { unfold deploy_index. apply emits_only_make_request.
    exact (Hreq ("indexEndpoints/" ++ endpoint_id ++ ":deployIndex")%string _). }
  intros deployed. apply emits_only_bind.
  { apply emits_nothing. intros w. now destruct (truthy (spreadsheet_id args)). }
  intros _. now apply emits_nothing.
Qed.

Lemma startswith_append (p s : string) : PyStr.startswith (p ++ s) p = true.
Proof.
  induction p as [|c p IH]; simpl; [now destruct s |].
  now rewrite Ascii.eqb_refl, IH.
Qed.

Lemma request_is_authorized (tok rest : string) (data : option json) :
  is_authorized tok
    (request_event (analyzer_with tok) "POST"
       (parent (analyzer_with tok) ++ String "/" rest) data)
  = true.
Proof.
  unfold is_authorized, request_event, request_url, request_headers.
  cbn [analyzer_with base_url token project_number location].
  rewrite !String.eqb_refl.
  change ("https://warehouse-visionai.googleapis.com/v1" ++ "/"
          ++ parent (analyzer_with tok) ++ String "/" rest)%string
    with ("https://warehouse-visionai.googleapis.com/v1/projects/your-project-number/locations/us-central1/"
          ++ rest)%string.
  rewrite startswith_append. reflexivity.
Qed.

(** X10: every HTTP request a run of [main] sends is a POST to a resource
    under the configured project and location of the service, carries as its
    only headers the bearer token read from [gcloud] (stripped) and the JSON
    content type, and has the configured timeout of 300 seconds; the GET
    branch of the request function is never taken by the driver. *)
Theorem requests_are_authorized_posts (args : Args) (w : World) :
  exists evs,
    trace (snd (main args w)) = trace w ++ evs
    /\ forallb (is_authorized (token_of w)) evs = true.
Proof.
  assert (Hbody : exists evs,
             trace (snd (main_body args w)) = trace w ++ evs
             /\ forallb (is_authorized (token_of w)) evs = true).
  { rewrite main_body_stages. unfold bind, token_of.
    destruct (gcloud w) as [stdout | e] eqn:Hg.
    - rewrite (init_with_token w stdout Hg).
      destruct (driver_stages_emits_only
                  (is_authorized (PyStr.strip stdout))
                  (analyzer_with (PyStr.strip stdout)) args
                  ltac:(reflexivity)
                  (request_is_authorized (PyStr.strip stdout))
                  (emit EvToken w))
        as (evs & Htrace & Hall).
      exists (EvToken :: evs). split; [| exact Hall].
      rewrite Htrace. simpl. now rewrite <- app_assoc.
    - exists [EvToken]. split; [| reflexivity].
      unfold __init__, bind, get_access_token. rewrite Hg. now destruct e. }
  destruct Hbody as (evs & Htrace & Hall). exists evs. split; [| exact Hall].
  unfold main. destruct (main_body args w) as [[[] | e] w']; exact Htrace.
Qed.

(** ** The image stage *)

(** X11: when the enumeration finds nothing -- the directory is missing or
    empty, or none of its files has a supported extension -- the image stage
    ends normally right after its first log line: no upload, no request. *)
Theorem nothing_to_process (batch_size : nat) self image_dir corpus_id bucket_name w :
  0 < batch_size ->
  enumerate_images (walked w image_dir) = [] ->
  process_images_by batch_size self image_dir corpus_id bucket_name w
  = (Ok tt, write_log INFO (Msg "Starting image processing...") w).
Proof.
  intros HB Hnone. unfold process_images_by, bind, logger, os_walk, lift.
  replace (match fs (write_log INFO (Msg "Starting image processing...") w) image_dir with
           | Some d => (Ok (walk image_dir d), write_log INFO (Msg "Starting image processing...") w)
           | None => (Ok [], write_log INFO (Msg "Starting image processing...") w)
           end)
    with (Ok (walked w image_dir), write_log INFO (Msg "Starting image processing...") w)
    by (unfold walked; simpl; destruct (fs w image_dir); reflexivity).
  rewrite Hnone. unfold range. simpl.
  destruct (Nat.eqb_spec batch_size 0) as [-> | _]; [lia | reflexivity].
Qed.

Lemma nothing_to_process_witness :
  process_images_by 100 sample_analyzer "imgs" "c42" "bkt"
    (scripted [] (Some (Dir [("docs", Dir [] ["readme.md"])] ["notes.txt"])))
  = (Ok tt,
     write_log INFO (Msg "Starting image processing...")
       (scripted [] (Some (Dir [("docs", Dir [] ["readme.md"])] ["notes.txt"])))).
Proof.
  apply nothing_to_process; [lia | reflexivity].
Defined.

Lemma healthy_next_http (w : World) : healthy w -> healthy (next_http w).
Proof. intros [Hg Hh]. split; [exact Hg | intros i; apply (Hh (S i))]. Qed.











(** The sample tree holds two images, in two directories. *)
Example sample_enumeration :
  enumerate_images (walked (obliging JNull (Some sample_tree)) "imgs")
  = ["imgs/a.png"; "imgs/sub/b.JPG"].
Proof. reflexivity. Qed.

(** ** The search call *)

(** A POST call sends its request between one and [MAX_RETRIES + 1] times
    when it starts at counter 0. *)
Lemma post_from_zero self endpoint data w :
  exists n r w',
    _make_request self "POST" endpoint data 0 w = (r, w')
    /\ 1 <= n <= 4
    /\ trace w' = trace w ++ repeat (request_event self "POST" endpoint data) n.
Proof.
  destruct (make_request_run self "POST" endpoint data (or_introl eq_refl) _ 0%Z w eq_refl)
    as (k & r & w' & Hrun & Hk & Htrace & _).
  change (retries_left 0) with 3 in Hk.
  exists (S k), r, w'. split; [exact Hrun |]. split; [lia | exact Htrace].
Qed.

(** X13: a search first uploads the query image to the bucket named after
    the project, under "query/", the date and the base name of the image.
    When that upload fails the search raises the storage error and sends no
    request.  Otherwise it sends one query -- a POST to the [:findNeighbors]
    action of the endpoint, carrying the URI the upload returned and the
    bound on the number of results -- between one and four times, and
    nothing else. *)
Theorem search_uploads_then_queries self index_endpoint_id query_image_path
    (max_results : Z) (w : World) :
  let bucket_name := (project_number self ++ "-query-images")%string in
  let destination :=
    ("query/" ++ strftime_Ymd (clock w 0) ++ "/"
     ++ os_path.basename query_image_path)%string in
  let query :=
    request_event self "POST"
      (parent self ++ "/indexEndpoints/" ++ index_endpoint_id ++ ":findNeighbors")
      (Some (JObj [("query_image",
                    JObj [("gcs_uri",
                           JStr ("gs://" ++ bucket_name ++ "/" ++ destination))]);
                   ("max_results", JInt max_results)])) in
  is_search query = true
  /\ match gcs_replies w 0 with
     | Some e =>
         search_similar_images self index_endpoint_id query_image_path max_results w
         = (Raise e,
            emit (EvUpload bucket_name query_image_path destination false)
                 (next_gcs (next_clock w)))
     | None =>
         exists n r w',
           search_similar_images self index_endpoint_id query_image_path max_results w
           = (r, w')
           /\ 1 <= n <= 4
           /\ trace w'
              = trace w
                ++ EvUpload bucket_name query_image_path destination true
                   :: repeat query n
     end.
Proof.
  intros bucket_name destination query. split.
  - unfold query, request_event, request_url. cbn [is_search].
    apply endswith_spec.
    exists (base_url self ++ "/" ++ parent self ++ "/indexEndpoints/"
            ++ index_endpoint_id)%string.
    now rewrite !append_assoc.
  - unfold search_similar_images, bind, datetime_now, upload_to_gcs.
    cbn [next_clock gcs_replies]. fold bucket_name. fold destination.
    destruct (gcs_replies w 0) as [e |]; [reflexivity |].
    match goal with
    | |- context [_make_request ?s ?m ?ep ?d 0 ?w1] =>
        destruct (post_from_zero s ep d w1) as (n & r & w' & Hrun & Hn & Htrace)
    end.
    exists n, r, w'. split; [exact Hrun |]. split; [exact Hn |].
    rewrite Htrace. simpl. now rewrite <- app_assoc.
Qed.

(** ** More on the result sink *)

Lemma add_keys_in (ks seen : list string) (k : string) :
  In k (fold_left (fun acc k => if existsb (String.eqb k) acc then acc else acc ++ [k])
                  ks seen)
  <-> In k seen \/ In k ks.
Proof.
  revert seen. induction ks as [|x ks IH]; intros seen; simpl; [tauto |].
  rewrite IH. destruct (existsb (String.eqb x) seen) eqn:Hx.
  - apply existsb_eqb_in in Hx. split; [tauto |].
    intros [H | [<- | H]]; tauto.
  - rewrite in_app_iff. simpl. tauto.
Qed.

Lemma add_keys_nodup (ks seen : list string) :
  NoDup seen ->
  NoDup (fold_left (fun acc k => if existsb (String.eqb k) acc then acc else acc ++ [k])
                   ks seen).
Proof.
  revert seen. induction ks as [|x ks IH]; intros seen Hnd; simpl; [exact Hnd |].
  apply IH. destruct (existsb (String.eqb x) seen) eqn:Hx; [exact Hnd |].
  assert (Hnot : ~ In x seen).
  { intros Hin. apply existsb_eqb_in in Hin. congruence. }
  clear Hx. induction Hnd as [|y seen Hy Hnd IHnd]; simpl.
  - constructor; [intros [] | constructor].
  - constructor.
    + rewrite in_app_iff. simpl. intros [H | [H | []]]; [tauto |].
      apply Hnot. now left.
    + apply IHnd. intros H. apply Hnot. now right.
Qed.

Lemma columns_from (results : list row) (seen : list string) :
  NoDup seen ->
  NoDup (fold_left add_keys results seen)
  /\ forall k, In k (fold_left add_keys results seen)
               <-> In k seen \/ exists r, In r results /\ In k (map fst r).
Proof.
  revert seen. induction results as [|r results IH]; intros seen Hnd; simpl.
  - split; [exact Hnd |]. intros k. split; [tauto |].
    intros [H | (r & [] & _)]. exact H.
  - destruct (IH (add_keys seen r) (add_keys_nodup _ _ Hnd)) as [Hnd' Hin].
    split; [exact Hnd' |]. intros k. rewrite Hin. unfold add_keys.
    rewrite add_keys_in. split.
    + intros [[H | H] | (r' & Hr' & Hk)]; [tauto | right | right].
      * exists r. split; [now left | exact H].
      * exists r'. split; [now right | exact Hk].
    + intros [H | (r' & [<- | Hr'] & Hk)]; [tauto | tauto |].
      right. now exists r'.
Qed.

(** X14: whatever the rows, the sink makes exactly one update call and
    returns what that call answers, without retrying.  The header holds
    every field name that occurs in some row, and only those, each once; the
    payload is the header followed by one record per row; every record is as
    long as the header, holding the row's value under each name and NaN
    where the row lacks the name.  With no rows the payload is one empty
    header. *)
Theorem sheet_update_shape (results : list row)
    (spreadsheet_id range_name credentials : string) (w : World) :
  let columns := DataFrame_columns results in
  NoDup columns
  /\ (forall k, In k columns <-> exists r, In r results /\ In k (map fst r))
  /\ exists records,
       save_to_spreadsheet results spreadsheet_id range_name credentials w
       = (match sheets_replies w 0 with None => Ok tt | Some e => Raise e end,
          emit (EvSheetUpdate spreadsheet_id range_name "RAW"
                              (map CStr columns :: records))
               (next_sheets w))
       /\ length records = length results
       /\ Forall (fun record => length record = length columns) records
       /\ Forall2
            (fun r record =>
               Forall2
                 (fun k v => v = match lookup k r with Some x => x | None => nan end)
                 columns record)
            results records.
Proof.
  intros columns.
  destruct (columns_from results [] (NoDup_nil _)) as [Hnd Hin].
  split; [exact Hnd |]. split.
  { intros k. unfold columns, DataFrame_columns. rewrite Hin. simpl. tauto. }
  exists (DataFrame_values results). split.
  { unfold save_to_spreadsheet. destruct (sheets_replies w 0); reflexivity. }
  unfold DataFrame_values. fold columns. split; [apply length_map |]. split.
  - apply Forall_forall. intros record Hrec. apply in_map_iff in Hrec.
    destruct Hrec as (r & <- & _). apply length_map.
  - clearbody columns. clear.
    induction results as [|r results IH]; simpl; [constructor |].
    constructor; [| exact IH]. clear.
    induction columns as [|k columns IH]; simpl; [constructor |].
    constructor; [reflexivity | exact IH].
Qed.

(** ** Uploading a directory *)

Section UploadDirectoryFacts.

Variable relpath : string -> string -> string.
Variables bucket_name source_dir destination_prefix : string.

Let uri := directory_uri relpath bucket_name source_dir destination_prefix.
Let upload := directory_upload relpath bucket_name source_dir destination_prefix.

Lemma upload_files_stored (root : string) (files : list string) :
  forall (uploaded : list string) (w : World),
    (forall i, gcs_replies w i = None) ->
    exists w',
      for_fold files uploaded
        (fun uploaded_files file =>
           if PyStr.endswith_any (PyStr.lower file) [".jpg"; ".jpeg"; ".png"]
           then
             gcs_uri <- upload_to_gcs bucket_name (os_path.join root file)
                          (os_path.join destination_prefix
                             (relpath (os_path.join root file) source_dir)) ;;
             ret (uploaded_files ++ [gcs_uri])
           else ret uploaded_files) w
      = (Ok (uploaded
             ++ map uri (map (os_path.join root) (filter is_supported files))), w')
      /\ trace w'
         = trace w ++ map upload (map (os_path.join root) (filter is_supported files))
      /\ (forall i, gcs_replies w' i = None).
Proof.
  induction files as [|file files IH]; intros uploaded w Hw.
  - exists w. simpl. rewrite !app_nil_r. now repeat split.
  - cbn [for_fold filter]. unfold bind at 1.
    change (PyStr.endswith_any (PyStr.lower file) [".jpg"; ".jpeg"; ".png"])
      with (is_supported file).
    destruct (is_supported file).
    + unfold bind at 1. unfold upload_to_gcs at 1. rewrite (Hw 0). unfold ret at 1.
      match goal with
      | |- context [for_fold files ?acc ?body ?w1] =>
          destruct (IH acc w1) as (w' & Hrun & Htrace & Hw')
      end.
      { intros i. apply (Hw (S i)). }
      exists w'. split; [| split; [| exact Hw']].
      * rewrite Hrun. simpl. now rewrite <- app_assoc.
      * rewrite Htrace. simpl. now rewrite <- app_assoc.
    + unfold ret at 1. apply IH. exact Hw.
Qed.

Lemma upload_walked_stored (entries : list (string * list string * list string)) :
  forall (uploaded : list string) (w : World),
    (forall i, gcs_replies w i = None) ->
    exists w',
      for_fold entries uploaded
        (fun uploaded_files entry =>
           let '(root, _, files) := entry in
           for_fold files uploaded_files
             (fun uploaded_files file =>
                if PyStr.endswith_any (PyStr.lower file) [".jpg"; ".jpeg"; ".png"]
                then
                  gcs_uri <- upload_to_gcs bucket_name (os_path.join root file)
                               (os_path.join destination_prefix
                                  (relpath (os_path.join root file) source_dir)) ;;
                  ret (uploaded_files ++ [gcs_uri])
                else ret uploaded_files)) w
      = (Ok (uploaded ++ map uri (selected entries)), w')
      /\ trace w' = trace w ++ map upload (selected entries)
      /\ (forall i, gcs_replies w' i = None).
Proof.
  induction entries as [|[[root dirs] files] entries IH]; intros uploaded w Hw.
  - exists w. simpl. rewrite !app_nil_r. now repeat split.
  - cbn [for_fold]. unfold bind at 1.
    destruct (upload_files_stored root files uploaded w Hw) as (w1 & Hrun1 & Htr1 & Hw1).
    rewrite Hrun1.
    destruct (IH (uploaded
                  ++ map uri (map (os_path.join root) (filter is_supported files)))
                 w1 Hw1) as (w' & Hrun & Htr & Hw').
    exists w'. split; [| split; [| exact Hw']].
    + rewrite Hrun. unfold selected. simpl. now rewrite !map_app, <- app_assoc.
    + rewrite Htr, Htr1. unfold selected. simpl. now rewrite !map_app, <- app_assoc.
Qed.

(** X15: when every upload is stored, [upload_directory_to_gcs] sends
    exactly the files that [process_images] enumerates for the same
    directory -- the same extension filter, the same order -- each once, to
    the destination joined from the prefix and the file's path relative to the
    directory, and returns their URIs in that order; it sends nothing else. *)
Theorem directory_upload_matches_enumeration (w : World) :
  (forall i, gcs_replies w i = None) ->
  exists w',
    upload_directory_to_gcs relpath bucket_name source_dir destination_prefix w
    = (Ok (map uri (enumerate_images (walked w source_dir))), w')
    /\ trace w' = trace w ++ map upload (enumerate_images (walked w source_dir)).
Proof.
  intros Hw. unfold upload_directory_to_gcs, bind at 1, os_walk.
  rewrite enumerate_images_selected.
  assert (Hwalk : (match fs w source_dir with
                   | Some d => (Ok (walk source_dir d), w)
                   | None => (Ok [], w)
                   end) = (Ok (walked w source_dir), w))
    by (unfold walked; destruct (fs w source_dir); reflexivity).
  rewrite Hwalk.
  destruct (upload_walked_stored (walked w source_dir) [] w Hw) as (w' & Hrun & Htr & _).
  exists w'. split; [exact Hrun | exact Htr].
Qed.

End UploadDirectoryFacts.

Lemma directory_upload_matches_enumeration_witness :
  exists w',
    upload_directory_to_gcs sample_relpath "bkt" "imgs" "logos"
      (obliging JNull (Some sample_tree))
    = (Ok (map (directory_uri sample_relpath "bkt" "imgs" "logos")
               (enumerate_images (walked (obliging JNull (Some sample_tree)) "imgs"))),
       w')
    /\ trace w'
       = trace (obliging JNull (Some sample_tree))
         ++ map (directory_upload sample_relpath "bkt" "imgs" "logos")
                (enumerate_images (walked (obliging JNull (Some sample_tree)) "imgs")).
Proof.
  apply directory_upload_matches_enumeration. intros i. reflexivity.
Defined.

(** The sample directory, uploaded under a prefix. *)
Example sample_directory_upload :
  fst (upload_directory_to_gcs sample_relpath "bkt" "imgs" "logos"
         (obliging JNull (Some sample_tree)))
  = Ok ["gs://bkt/logos/a.png"; "gs://bkt/logos/sub/b.JPG"].
Proof. reflexivity. Qed.

(** ** The order of the stages *)

Lemma post_run_trace self endpoint data w r w' :
  _make_request self "POST" endpoint data 0 w = (r, w') ->
  exists n,
    1 <= n <= 4
    /\ trace w' = trace w ++ repeat (request_event self "POST" endpoint data) n.
Proof.
  intros Hrun. destruct (post_from_zero self endpoint data w)
    as (n & r0 & w0 & Hrun0 & Hn & Htrace).
  rewrite Hrun in Hrun0. injection Hrun0 as <- <-. now exists n.
Qed.

(** X16: a failure of the corpus creation ends the run before anything is
    uploaded.  When the token is obtained and the first four replies of the
    service are request failures, [main] raises the terminal error carrying
    the fourth failure, and all it has done is the [gcloud] call and four
    identical corpus-creation requests. *)
Theorem corpus_failure_aborts (args : Args) (w : World) (stdout : string) :
  gcloud w = Ok stdout ->
  (forall i, i < 4 ->
     exists failure, outcome (http_replies w i) = Raise (RequestException failure)) ->
  exists e w',
    main args w = (Raise (RequestFailed config.MAX_RETRIES e), w')
    /\ outcome (http_replies w 3) = Raise (RequestException e)
    /\ trace w'
       = trace w
         ++ EvToken
            :: repeat (request_event (analyzer_with (PyStr.strip stdout)) "POST"
                         (parent (analyzer_with (PyStr.strip stdout)) ++ "/corpora")
                         (Some corpus_settings)) 4.
Proof.
  intros Hg Hall. destruct (Hall 3 ltac:(lia)) as [e He].
  destruct (exhausted_run (analyzer_with (PyStr.strip stdout)) "POST"
              (parent (analyzer_with (PyStr.strip stdout)) ++ "/corpora")
              (Some corpus_settings) 0
              (write_log INFO (Msg "Creating corpus...") (emit EvToken w)) e
              (or_introl eq_refl))
    as (w' & Hrun & Htrace & _).
  { intros i Hi. apply Hall. change (retries_left 0) with 3 in Hi. simpl. lia. }
  { exact He. }
  exists e, (write_log ERROR (MsgExc "An error occurred: "
                                     (RequestFailed config.MAX_RETRIES e)) w').
  split; [| split; [exact He |]].
  - unfold main. rewrite main_body_stages. unfold bind at 1.
    rewrite (init_with_token w stdout Hg). unfold driver_stages.
    unfold bind at 1. unfold logger at 1. unfold bind at 1.
    unfold create_corpus. rewrite Hrun. reflexivity.
  - cbn [trace write_log]. rewrite Htrace. simpl. now rewrite <- app_assoc.
Qed.

Lemma corpus_failure_aborts_witness :
  exists e w',
    main sample_args (scripted [] (Some sample_tree))
    = (Raise (RequestFailed config.MAX_RETRIES e), w')
    /\ outcome (http_replies (scripted [] (Some sample_tree)) 3)
       = Raise (RequestException e)
    /\ trace w'
       = trace (scripted [] (Some sample_tree))
         ++ EvToken
            :: repeat (request_event (analyzer_with (PyStr.strip "ya29.token")) "POST"
                         (parent (analyzer_with (PyStr.strip "ya29.token")) ++ "/corpora")
                         (Some corpus_settings)) 4.
Proof.
  apply (corpus_failure_aborts sample_args (scripted [] (Some sample_tree)) "ya29.token").
  - reflexivity.
  - intros i _. exists Timeout. unfold scripted. simpl. now destruct i.
Defined.

Lemma registration_registers_in self corpus_id gcs_uri :
  registers_in self corpus_id (register_event self corpus_id gcs_uri) = true.
Proof.
  unfold registers_in, register_event, request_event. now rewrite !String.eqb_refl.
Qed.

(** *** One reply for each request *)

Lemma one_reply_each_quiet {A : Type} (c : M A) :
  (forall w, trace (snd (c w)) = trace w) ->
  (forall w, http_replies (snd (c w)) = http_replies w) ->
  one_reply_each c.
Proof.
  intros Ht Hh w. exists []. rewrite Ht, Hh, app_nil_r.
  split; [reflexivity |]. intros i. unfold requests_in. simpl.
  now rewrite Nat.add_0_r.
Qed.

Lemma one_reply_each_bind {A B : Type} (c : M A) (k : A -> M B) :
  one_reply_each c -> (forall a, one_reply_each (k a)) -> one_reply_each (bind c k).
Proof.
  intros Hc Hk w. destruct (Hc w) as (evs1 & Ht1 & Hh1). unfold bind.
  destruct (c w) as [[a | e] w1]; simpl in Ht1, Hh1.
  - destruct (Hk a w1) as (evs2 & Ht2 & Hh2). exists (evs1 ++ evs2).
    split; [now rewrite Ht2, Ht1, app_assoc |].
    intros i. rewrite Hh2, Hh1. unfold requests_in.
    rewrite filter_app, length_app. f_equal. lia.
  - exists evs1. split; [exact Ht1 | exact Hh1].
Qed.

Lemma one_reply_each_for_ {A : Type} (xs : list A) (body : A -> M unit) :
  (forall x, one_reply_each (body x)) -> one_reply_each (for_ xs body).
Proof.
  intros Hbody. induction xs as [|x xs IH]; simpl.
  - now apply one_reply_each_quiet.
  - apply one_reply_each_bind; [apply Hbody | intros _; exact IH].
Qed.

Lemma one_reply_each_for_each {A B : Type} (xs : list A) (body : A -> M B) :
  (forall x, one_reply_each (body x)) -> one_reply_each (for_each xs body).
Proof.
  intros Hbody. induction xs as [|x xs IH]; simpl.
  - now apply one_reply_each_quiet.
  - apply one_reply_each_bind; [apply Hbody | intros b].
    apply one_reply_each_bind; [exact IH | intros bs].
    now apply one_reply_each_quiet.
Qed.

Lemma requests_in_repeat self method endpoint data (n : nat) :
  requests_in (repeat (request_event self method endpoint data) n) = n.
Proof.
  unfold requests_in. induction n as [|n IH]; simpl; [reflexivity | now f_equal].
Qed.

Lemma make_request_one_reply_each self method endpoint data c :
  one_reply_each (_make_request self method endpoint data c).
Proof.
  intros w.
  destruct (String.eqb_spec method "POST") as [HP | HP];
    [| destruct (String.eqb_spec method "GET") as [HG | HG]].
  3: { exists []. rewrite make_request_unbound by assumption.
       simpl. rewrite app_nil_r. split; [reflexivity |].
       intros i. unfold requests_in. simpl. now rewrite Nat.add_0_r. }
  all: assert (Hm : method = "POST" \/ method = "GET") by (subst; auto);
    destruct (make_request_run self method endpoint data Hm _ c w eq_refl)
      as (k & r & w' & Hrun & _ & Htrace & _ & Hreplies & _);
    rewrite Hrun; exists (repeat (request_event self method endpoint data) (S k));
    (split; [exact Htrace |]);
    intros i; rewrite requests_in_repeat; apply Hreplies.
Qed.

(** The image stage takes one reply for each request it sends. *)
Lemma process_images_one_reply_each batch_size self image_dir corpus_id bucket_name :
  one_reply_each (process_images_by batch_size self image_dir corpus_id bucket_name).
Proof.
  unfold process_images_by.
  apply one_reply_each_bind; [now apply one_reply_each_quiet | intros _].
  apply one_reply_each_bind.
  { apply one_reply_each_quiet; intros w; unfold os_walk; now destruct (fs w image_dir). }
  intros walked_.
  apply one_reply_each_bind; [now apply one_reply_each_quiet | intros starts].
  apply one_reply_each_for_. intros i. unfold process_batch.
  apply one_reply_each_bind.
  - apply one_reply_each_for_each. intros path.
    apply one_reply_each_bind; [now apply one_reply_each_quiet | intros today].
    intros w. unfold upload_to_gcs.
    destruct (gcs_replies w 0); eexists [_]; (split; [reflexivity |]);
      intros j; unfold requests_in; simpl; now rewrite Nat.add_0_r.
  - intros uris. apply one_reply_each_for_. intros uri.
    apply one_reply_each_bind; [| intros _; now apply one_reply_each_quiet].
    unfold create_asset. apply make_request_one_reply_each.
Qed.

(** X17: a run that ends normally went through its stages in order, each
    finished before the next began.  Its trace is the [gcloud] call, then
    the corpus creation, then the uploads and registrations of the images
    (all registrations addressed to the corpus just created), then the index
    creation in that corpus, then the endpoint creation, then the deployment
    of that index on that endpoint; each of the four calls appears as one
    request sent one to four times, and nothing follows the deployment.  The
    identifiers in these requests are those the service gave: as the replies
    of the world answer the requests of the trace one for one, the corpus,
    the index and the endpoint identifier are each the final segment of the
    name in the body of the reply to the last request of the creation call
    concerned. *)
Theorem stages_in_order (args : Args) (w w' : World) :
  main args w = (Ok tt, w') ->
  let a := analyzer_with (token_of w) in
  exists corpus_id index_id endpoint_id today images n1 n2 n3 n4,
    trace w'
    = trace w
      ++ EvToken
         :: repeat (request_event a "POST" (parent a ++ "/corpora")
                      (Some corpus_settings)) n1
      ++ images
      ++ repeat (request_event a "POST"
                   (parent a ++ "/corpora/" ++ corpus_id ++ "/indexes")
                   (Some index_settings)) n2
      ++ repeat (request_event a "POST" (parent a ++ "/indexEndpoints")
                   (Some (JObj [("display_name",
                                 JStr ("logo_similarity_endpoint_"
                                       ++ strftime_Ymd today));
                                ("description",
                                 JStr "Endpoint for logo similarity search")]))) n3
      ++ repeat (request_event a "POST"
                   (parent a ++ "/indexEndpoints/" ++ endpoint_id ++ ":deployIndex")
                   (Some (JObj [("deployedIndex",
                                 JObj [("index",
                                        JStr (parent a ++ "/corpora/" ++ corpus_id
                                              ++ "/indexes/" ++ index_id))])]))) n4
    /\ 1 <= n1 <= 4 /\ 1 <= n2 <= 4 /\ 1 <= n3 <= 4 /\ 1 <= n4 <= 4
    /\ forallb (fun e => is_upload e || registers_in a corpus_id e) images = true
    /\ creation_reply (http_replies w (n1 - 1)) corpus_id
    /\ creation_reply (http_replies w (n1 + requests_in images + n2 - 1)) index_id
    /\ creation_reply (http_replies w (n1 + requests_in images + n2 + n3 - 1))
                      endpoint_id.
Proof.
  intros Hmain a. unfold main in Hmain.
  destruct (main_body args w) as [[[] | e] w0'] eqn:Hrun; [| discriminate].
  injection Hmain as ->.
  destruct (main_body_run args w w' Hrun)
    as (analyzer & w0 & corpus_response & corpus_id & w2 & w3
        & index_response & index_id & w4 & endpoint_response & endpoint_id & w5
        & deployed & w6
        & Hinit & Hcorpus & Hcid & Himages & Hindex & Hiid & Hendpoint & Heid
        & Hdeploy & Hend).
  destruct (gcloud w) as [stdout | e] eqn:Hg.
  2: { unfold __init__, bind, get_access_token in Hinit. rewrite Hg in Hinit.
       destruct e; discriminate. }
  rewrite (init_with_token w stdout Hg) in Hinit. injection Hinit as <- <-.
  assert (Ha : a = analyzer_with (PyStr.strip stdout))
    by (unfold a, token_of; now rewrite Hg).
  rewrite <- Ha in Hcorpus, Himages, Hindex, Hendpoint, Hdeploy. clearbody a.
  assert (Htr : trace w' = trace w6)
    by (rewrite Hend; now destruct (truthy (spreadsheet_id args))).
  apply extract_id_ok in Hcid. destruct Hcid as (_ & corpus_name & Hcn & Hcs).
  apply extract_id_ok in Hiid. destruct Hiid as (_ & index_name & Hin & His).
  apply extract_id_ok in Heid. destruct Heid as (_ & endpoint_name & Hen & Hes).
  apply post_returns_reply in Hcorpus.
  destruct Hcorpus as (k1 & Hk1 & Ho1 & _ & Ht1 & Hh1).
  apply post_returns_reply in Hindex.
  destruct Hindex as (k2 & Hk2 & Ho2 & _ & Ht2 & Hh2).
  apply post_returns_reply in Hendpoint.
  destruct Hendpoint as (k3 & Hk3 & Ho3 & _ & Ht3 & _).
  apply post_run_trace in Hdeploy. destruct Hdeploy as (n4 & Hn4 & Ht4).
  destruct (process_images_emits_only
              (fun e => is_upload e || registers_in a corpus_id e)
              config.BATCH_SIZE a (image_dir args) corpus_id (bucket args)
              ltac:(reflexivity)
              ltac:(intros u; cbv beta; rewrite registration_registers_in; apply orb_true_r)
              (write_log INFO (Msg "Processing images...") w2))
    as (images & Ht & Himgs).
  destruct (process_images_one_reply_each
              config.BATCH_SIZE a (image_dir args) corpus_id (bucket args)
              (write_log INFO (Msg "Processing images...") w2))
    as (images' & Ht' & Hh).
  unfold process_images in Himages. rewrite Himages in Ht, Ht', Hh.
  cbn [snd trace http_replies write_log next_clock emit]
    in Ht, Ht', Hh, Ht1, Ht2, Ht3, Ht4, Hh1, Hh2, Ho1, Ho2, Ho3.
  assert (images' = images) as ->
    by (rewrite Ht in Ht'; now apply app_inv_head in Ht').
  exists corpus_id, index_id, endpoint_id, (clock w4 0), images,
    (S k1), (S k2), (S k3), n4.
  split.
  { rewrite Htr, Ht4, Ht3, Ht2, Ht, Ht1. rewrite <- !app_assoc. reflexivity. }
  split; [lia |]. split; [lia |]. split; [lia |]. split; [lia |].
  split; [exact Himgs |].
  split.
  { exists corpus_response, corpus_name.
    replace (S k1 - 1) with k1 by lia. now split. }
  split.
  { exists index_response, index_name.
    replace (S k1 + requests_in images + S k2 - 1)
      with (k2 + requests_in images + S k1) by lia.
    rewrite <- Hh1, <- Hh. now split. }
  exists endpoint_response, endpoint_name.
  replace (S k1 + requests_in images + S k2 + S k3 - 1)
    with (k3 + S k2 + requests_in images + S k1) by lia.
  rewrite <- Hh1, <- Hh, <- Hh2. now split.
Qed.

Lemma stages_in_order_witness :
  let w := sample_world in
  let a := analyzer_with (token_of w) in
  exists corpus_id index_id endpoint_id today images n1 n2 n3 n4,
    trace (snd (main sample_args w))
    = trace w
      ++ EvToken
         :: repeat (request_event a "POST" (parent a ++ "/corpora")
                      (Some corpus_settings)) n1
      ++ images
      ++ repeat (request_event a "POST"
                   (parent a ++ "/corpora/" ++ corpus_id ++ "/indexes")
                   (Some index_settings)) n2
      ++ repeat (request_event a "POST" (parent a ++ "/indexEndpoints")
                   (Some (JObj [("display_name",
                                 JStr ("logo_similarity_endpoint_"
                                       ++ strftime_Ymd today));
                                ("description",
                                 JStr "Endpoint for logo similarity search")]))) n3
      ++ repeat (request_event a "POST"
                   (parent a ++ "/indexEndpoints/" ++ endpoint_id ++ ":deployIndex")
                   (Some (JObj [("deployedIndex",
                                 JObj [("index",
                                        JStr (parent a ++ "/corpora/" ++ corpus_id
                                              ++ "/indexes/" ++ index_id))])]))) n4
    /\ 1 <= n1 <= 4 /\ 1 <= n2 <= 4 /\ 1 <= n3 <= 4 /\ 1 <= n4 <= 4
    /\ forallb (fun e => is_upload e || registers_in a corpus_id e) images = true
    /\ creation_reply (http_replies w (n1 - 1)) corpus_id
    /\ creation_reply (http_replies w (n1 + requests_in images + n2 - 1)) index_id
    /\ creation_reply (http_replies w (n1 + requests_in images + n2 + n3 - 1))
                      endpoint_id.
Proof.
  intros w.
  apply (stages_in_order sample_args w (snd (main sample_args w))).
  vm_compute. reflexivity.
Defined.

(** ** The retry budget of a run *)

Lemma requests_bounded_bind {A B : Type} (n m : nat) (c : M A) (k : A -> M B) :
  requests_bounded n c -> (forall a, requests_bounded m (k a)) ->
  requests_bounded (n + m) (bind c k).
Proof.
  intros Hc Hk w. destruct (Hc w) as (evs1 & Ht1 & Hb1). unfold bind.
  destruct (c w) as [[a | e] w1]; simpl in Ht1.
  - destruct (Hk a w1) as (evs2 & Ht2 & Hb2). exists (evs1 ++ evs2).
    split; [now rewrite Ht2, Ht1, app_assoc |].
    rewrite !filter_app, !length_app. lia.
  - exists evs1. split; [exact Ht1 | lia].
Qed.

Lemma requests_bounded_quiet {A : Type} (c : M A) :
  (forall w, trace (snd (c w)) = trace w) -> requests_bounded 0 c.
Proof. intros H w. exists []. rewrite H, app_nil_r. split; [reflexivity | simpl; lia]. Qed.

Lemma requests_bounded_for_ {A : Type} (xs : list A) (body : A -> M unit) :
  (forall x, requests_bounded 0 (body x)) -> requests_bounded 0 (for_ xs body).
Proof.
  intros Hbody. induction xs as [|x xs IH]; simpl.
  - now apply requests_bounded_quiet.
  - apply (requests_bounded_bind 0 0); [apply Hbody | intros _; exact IH].
Qed.

Lemma requests_bounded_post self endpoint data :
  requests_bounded 1 (_make_request self "POST" endpoint data 0).
Proof.
  intros w. destruct (post_from_zero self endpoint data w)
    as (n & r & w' & Hrun & Hn & Htrace).
  exists (repeat (request_event self "POST" endpoint data) n).
  rewrite Hrun. split; [exact Htrace |].
  assert (Hlen : length (filter is_http (repeat (request_event self "POST" endpoint data) n))
                 = n).
  { clear. induction n as [|n IH]; simpl; [reflexivity | now rewrite IH]. }
  rewrite Hlen. lia.
Qed.

Lemma count_stored_uploads bucket_name dated :
  length (filter is_stored_upload (stored_uploads bucket_name dated)) = length dated
  /\ length (filter is_http (stored_uploads bucket_name dated)) = 0.
Proof.
  induction dated as [|p dated [IH1 IH2]]; simpl; [now split |].
  now rewrite IH1, IH2.
Qed.

Lemma count_registration_requests self corpus_id attempted :
  Forall (fun p => 1 <= snd p /\ (Z.of_nat (snd p) <= config.MAX_RETRIES + 1)%Z)
         attempted ->
  length (filter is_http (registration_requests self corpus_id attempted))
  <= 4 * length attempted
  /\ length (filter is_stored_upload (registration_requests self corpus_id attempted))
     = 0.
Proof.
  unfold registration_requests.
  induction 1 as [|[uri n] attempted [_ Hn] _ [IH1 IH2]]; simpl; [split; lia |].
  rewrite !filter_app, !length_app, IH2.
  assert (Hr : length (filter is_http (repeat (register_event self corpus_id uri) n)) = n
               /\ length (filter is_stored_upload
                            (repeat (register_event self corpus_id uri) n)) = 0).
  { clear. induction n as [|n [IHa IHb]]; simpl; [now split |]. now rewrite IHa, IHb. }
  destruct Hr as [-> ->]. unfold config.MAX_RETRIES in Hn. simpl in Hn. lia.
Qed.

(** A batch costs at most [MAX_RETRIES + 1] requests per stored upload. *)
Lemma requests_bounded_batch self corpus_id bucket_name batch :
  requests_bounded 0 (process_batch self corpus_id bucket_name batch).
Proof.
  intros w. unfold process_batch, bind.
  destruct (upload_batch_run bucket_name batch w)
    as (r1 & w1 & Hup & _ & [(dates & Hlen & -> & Htrace1)
                            | (dates & done & today & file & rest & e
                               & -> & Hlen & -> & Htrace1)]);
    rewrite Hup.
  - destruct (register_batch_run self corpus_id
                (returned_uris bucket_name (combine dates batch)) w1)
      as (r & w' & attempted & rest & Hreg & Htrace2 & Huris & _ & Hall).
    rewrite Hreg. cbn [snd].
    exists (stored_uploads bucket_name (combine dates batch)
            ++ registration_requests self corpus_id attempted).
    split; [now rewrite Htrace2, Htrace1, app_assoc |].
    destruct (count_stored_uploads bucket_name (combine dates batch)) as [Hs Hh].
    destruct (count_registration_requests self corpus_id attempted Hall) as [Hr Hz].
    rewrite !filter_app, !length_app, Hs, Hh, Hz.
    assert (Hcount : length attempted <= length (combine dates batch)).
    { apply (f_equal (@length string)) in Huris.
      unfold returned_uris in Huris. rewrite length_app, !length_map in Huris. lia. }
    lia.
  - cbn [snd].
    exists (stored_uploads bucket_name (combine dates done)
            ++ [upload_event bucket_name today file false]).
    split; [exact Htrace1 |].
    destruct (count_stored_uploads bucket_name (combine dates done)) as [Hs Hh].
    rewrite !filter_app, !length_app, Hh. simpl. lia.
Qed.

Lemma requests_bounded_images batch_size self image_dir corpus_id bucket_name :
  requests_bounded 0 (process_images_by batch_size self image_dir corpus_id bucket_name).
Proof.
  unfold process_images_by.
  apply (requests_bounded_bind 0 0); [now apply requests_bounded_quiet | intros _].
  apply (requests_bounded_bind 0 0).
  { apply requests_bounded_quiet. intros w. unfold os_walk. now destruct (fs w image_dir). }
  intros walked_.
  apply (requests_bounded_bind 0 0); [now apply requests_bounded_quiet | intros starts].
  apply requests_bounded_for_. intros i. apply requests_bounded_batch.
Qed.

Lemma extract_id_quiet (response : json) (w : World) :
  trace (snd (extract_id response w)) = trace w.
Proof. destruct (extract_id_cases response w) as (r & -> & _). reflexivity. Qed.

Lemma requests_bounded_stages analyzer args :
  requests_bounded 4 (driver_stages analyzer args).
Proof.
  unfold driver_stages.
  apply (requests_bounded_bind 0 4); [now apply requests_bounded_quiet | intros _].
  apply (requests_bounded_bind 1 3); [apply requests_bounded_post | intros corpus_response].
  apply (requests_bounded_bind 0 3);
    [apply requests_bounded_quiet, extract_id_quiet | intros corpus_id].
  apply (requests_bounded_bind 0 3); [now apply requests_bounded_quiet | intros _].
  apply (requests_bounded_bind 0 3); [apply requests_bounded_images | intros _].
  apply (requests_bounded_bind 0 3); [now apply requests_bounded_quiet | intros _].
  apply (requests_bounded_bind 1 2); [apply requests_bounded_post | intros index_response].
  apply (requests_bounded_bind 0 2);
    [apply requests_bounded_quiet, extract_id_quiet | intros index_id].
  apply (requests_bounded_bind 0 2); [now apply requests_bounded_quiet | intros _].
  apply (requests_bounded_bind 0 2); [now apply requests_bounded_quiet | intros today].
  apply (requests_bounded_bind 1 1); [apply requests_bounded_post | intros endpoint_response].
  apply (requests_bounded_bind 0 1);
    [apply requests_bounded_quiet, extract_id_quiet | intros endpoint_id].
  apply (requests_bounded_bind 0 1); [now apply requests_bounded_quiet | intros _].
  apply (requests_bounded_bind 1 0); [apply requests_bounded_post | intros deployed].
  apply (requests_bounded_bind 0 0).
  { apply requests_bounded_quiet. intros w. now destruct (truthy (spreadsheet_id args)). }
  intros _. now apply requests_bounded_quiet.
Qed.

(** X18: the retry budget bounds what a run can send.  Whatever the world,
    the image stage sends at most [MAX_RETRIES + 1 = 4] requests for each
    upload it stored, and a whole run of [main] at most 4 requests for each
    stored upload and for each of its four other calls (corpus, index,
    endpoint, deployment). *)
Theorem requests_within_retry_budget (args : Args) (w : World) :
  (forall batch_size self image_dir corpus_id bucket_name w0,
      exists evs,
        trace (snd (process_images_by batch_size self image_dir corpus_id bucket_name w0))
        = trace w0 ++ evs
        /\ length (filter is_http evs) <= 4 * length (filter is_stored_upload evs))
  /\ exists evs,
       trace (snd (main args w)) = trace w ++ evs
       /\ length (filter is_http evs)
          <= 4 * (length (filter is_stored_upload evs) + 4).
Proof.
  split.
  - intros batch_size self image_dir corpus_id bucket_name w0.
    destruct (requests_bounded_images batch_size self image_dir corpus_id bucket_name w0)
      as (evs & Htrace & Hb).
    exists evs. split; [exact Htrace | lia].
  - assert (Hbody : requests_bounded 4 (main_body args)).
    { rewrite main_body_stages. apply (requests_bounded_bind 0 4).
      - intros w0. unfold __init__, bind, get_access_token.
        exists [EvToken]. split; [| simpl; lia].
        destruct (gcloud w0) as [out | []]; reflexivity.
      - intros analyzer. apply requests_bounded_stages. }
    destruct (Hbody w) as (evs & Htrace & Hb). exists evs. split; [| exact Hb].
    unfold main. destruct (main_body args w) as [[[] | e] w']; exact Htrace.
Qed.

(** ** Where a run stops *)

Lemma stops_of_emits_only {A : Type} (c : M A) :
  emits_only (fun e => negb (is_failed_upload e)) c -> stops_at_failed_upload c.
Proof.
  intros Hc w. destruct (Hc w) as (evs & Htrace & Hall).
  exists evs, []. rewrite app_nil_r. split; [exact Htrace |]. split; [exact Hall | now left].
Qed.

Lemma stops_bind {A B : Type} (c : M A) (k : A -> M B) :
  stops_at_failed_upload c -> (forall a, stops_at_failed_upload (k a)) ->
  stops_at_failed_upload (bind c k).
Proof.
  intros Hc Hk w. destruct (Hc w) as (evs1 & last1 & Ht1 & Hall1 & Hlast1). unfold bind.
  destruct (c w) as [[a | e] w1]; simpl in Ht1, Hlast1.
  - destruct Hlast1 as [-> | (b & s & d & e & _ & Hraise)]; [| discriminate].
    rewrite app_nil_r in Ht1.
    destruct (Hk a w1) as (evs2 & last2 & Ht2 & Hall2 & Hlast2).
    exists (evs1 ++ evs2), last2.
    split; [now rewrite Ht2, Ht1, <- !app_assoc |].
    split; [now rewrite forallb_app, Hall1, Hall2 | exact Hlast2].
  - exists evs1, last1. split; [exact Ht1 |]. split; [exact Hall1 |].
    destruct Hlast1 as [-> | (b & s & d & e' & -> & _)]; [now left | right].
    now exists b, s, d, e.
Qed.

Lemma stops_quiet {A : Type} (c : M A) :
  (forall w, trace (snd (c w)) = trace w) -> stops_at_failed_upload c.
Proof.
  intros H w. exists [], []. rewrite H. simpl. rewrite app_nil_r.
  split; [reflexivity |]. split; [reflexivity | now left].
Qed.

Lemma stops_for_ {A : Type} (xs : list A) (body : A -> M unit) :
  (forall x, stops_at_failed_upload (body x)) -> stops_at_failed_upload (for_ xs body).
Proof.
  intros Hbody. induction xs as [|x xs IH]; simpl.
  - now apply stops_quiet.
  - apply stops_bind; [apply Hbody | intros _; exact IH].
Qed.

Lemma stops_for_each {A B : Type} (xs : list A) (body : A -> M B) :
  (forall x, stops_at_failed_upload (body x)) -> stops_at_failed_upload (for_each xs body).
Proof.
  intros Hbody. induction xs as [|x xs IH]; simpl.
  - now apply stops_quiet.
  - apply stops_bind; [apply Hbody | intros b].
    apply stops_bind; [exact IH | intros bs]. now apply stops_quiet.
Qed.

Lemma stops_upload bucket_name source destination :
  stops_at_failed_upload (upload_to_gcs bucket_name source destination).
Proof.
  intros w. unfold upload_to_gcs. destruct (gcs_replies w 0) as [e |].
  - exists [], [EvUpload bucket_name source destination false].
    split; [reflexivity |]. split; [reflexivity | right].
    now exists bucket_name, source, destination, e.
  - exists [EvUpload bucket_name source destination true], [].
    split; [reflexivity |]. split; [reflexivity | now left].
Qed.

Lemma stops_request self method endpoint data c :
  stops_at_failed_upload (_make_request self method endpoint data c).
Proof. apply stops_of_emits_only. now apply emits_only_make_request. Qed.

Lemma stops_images batch_size self image_dir corpus_id bucket_name :
  stops_at_failed_upload
    (process_images_by batch_size self image_dir corpus_id bucket_name).
Proof.
  unfold process_images_by.
  apply stops_bind; [now apply stops_quiet | intros _].
  apply stops_bind.
  { apply stops_quiet. intros w. unfold os_walk. now destruct (fs w image_dir). }
  intros walked_. apply stops_bind; [now apply stops_quiet | intros starts].
  apply stops_for_. intros i. unfold process_batch. apply stops_bind.
  - apply stops_for_each. intros path.
    apply stops_bind; [now apply stops_quiet | intros today]. apply stops_upload.
  - intros uris. apply stops_for_. intros uri.
    apply stops_bind; [apply stops_request | intros _; now apply stops_quiet].
Qed.

Lemma stops_stages analyzer args :
  stops_at_failed_upload (driver_stages analyzer args).
Proof.
  unfold driver_stages.
  apply stops_bind; [now apply stops_quiet | intros _].
  apply stops_bind; [apply stops_request | intros corpus_response].
  apply stops_bind; [apply stops_quiet, extract_id_quiet | intros corpus_id].
  apply stops_bind; [now apply stops_quiet | intros _].
  apply stops_bind; [apply stops_images | intros _].
  apply stops_bind; [now apply stops_quiet | intros _].
  apply stops_bind; [apply stops_request | intros index_response].
  apply stops_bind; [apply stops_quiet, extract_id_quiet | intros index_id].
  apply stops_bind; [now apply stops_quiet | intros _].
  apply stops_bind; [now apply stops_quiet | intros today].
  apply stops_bind; [apply stops_request | intros endpoint_response].
  apply stops_bind; [apply stops_quiet, extract_id_quiet | intros endpoint_id].
  apply stops_bind; [now apply stops_quiet | intros _].
  apply stops_bind; [apply stops_request | intros deployed].
  apply stops_bind.
  { apply stops_quiet. intros w. now destruct (truthy (spreadsheet_id args)). }
  intros _. now apply stops_quiet.
Qed.

(** X19: a storage error ends the run on the spot.  In every run of [main]
    an upload that was not stored is the last event of the trace, and [main]
    raises: after a failed upload no further file is uploaded, no asset is
    registered -- not even for the files of the same batch that were
    stored -- and no later stage is entered. *)
Theorem failed_upload_is_last (args : Args) (w : World) :
  exists evs last_one,
    trace (snd (main args w)) = trace w ++ evs ++ last_one
    /\ forallb (fun e => negb (is_failed_upload e)) evs = true
    /\ (last_one = []
        \/ exists b s d e,
             last_one = [EvUpload b s d false] /\ fst (main args w) = Raise e).
Proof.
  assert (Hbody : stops_at_failed_upload (main_body args)).
  { rewrite main_body_stages. apply stops_bind.
    - apply stops_of_emits_only. intros w0. unfold __init__, bind, get_access_token.
      exists [EvToken]. split; [| reflexivity].
      destruct (gcloud w0) as [out | []]; reflexivity.
    - intros analyzer. apply stops_stages. }
  destruct (Hbody w) as (evs & last_one & Htrace & Hall & Hlast).
  exists evs, last_one. unfold main.
  destruct (main_body args w) as [[[] | e] w'];
    (split; [exact Htrace |]); (split; [exact Hall |]); exact Hlast.
Qed.

(** X20: [gcloud] is called once per run, before anything else: the first
    event of every run of [main] is the token call, and no other follows, so
    the token is never fetched again, not even after requests have
    failed. *)
Theorem token_fetched_once (args : Args) (w : World) :
  exists evs,
    trace (snd (main args w)) = trace w ++ EvToken :: evs
    /\ forallb (fun e => negb (is_token_call e)) evs = true.
Proof.
  assert (Hbody : exists evs,
             trace (snd (main_body args w)) = trace w ++ EvToken :: evs
             /\ forallb (fun e => negb (is_token_call e)) evs = true).
  { rewrite main_body_stages. unfold bind.
    destruct (gcloud w) as [stdout | e] eqn:Hg.
    - rewrite (init_with_token w stdout Hg).
      destruct (driver_stages_emits_only
                  (fun e => negb (is_token_call e))
                  (analyzer_with (PyStr.strip stdout)) args
                  ltac:(reflexivity) ltac:(reflexivity) (emit EvToken w))
        as (evs & Htrace & Hall).
      exists evs. split; [| exact Hall].
      rewrite Htrace. simpl. now rewrite <- app_assoc.
    - exists []. split; [| reflexivity].
      unfold __init__, bind, get_access_token. rewrite Hg. now destruct e. }
  destruct Hbody as (evs & Htrace & Hall). exists evs. split; [| exact Hall].
  unfold main. destruct (main_body args w) as [[[] | e] w']; exact Htrace.
Qed.

(** ** The announcement of the last stage *)

Lemma closes_log_bind (Q : level * message -> bool) (closing : list (level * message))
    {A B : Type} (c : M A) (k : A -> M B) :
  logs_only Q c ->
  (forall a, closes_log_with Q closing (k a)) ->
  closes_log_with Q closing (bind c k).
Proof.
  intros Hc Hk w. destruct (Hc w) as (ls1 & Hl1 & HQ1). unfold bind.
  destruct (c w) as [[a | e] w1]; simpl in Hl1.
  - destruct (Hk a w1) as (ls2 & HQ2 & Hl2). exists (ls1 ++ ls2).
    split; [now rewrite forallb_app, HQ1, HQ2 |].
    now rewrite Hl2, Hl1, <- !app_assoc.
  - exists ls1. simpl. now rewrite app_nil_r.
Qed.

Lemma request_logs_no_saving self method endpoint data c :
  logs_only (fun l => negb (is_saving_line l))
            (_make_request self method endpoint data c).
Proof.
  eapply logs_only_weaken; [| apply make_request_logs_warnings].
  intros [[] msg]; simpl; congruence.
Qed.

Lemma images_log_no_saving batch_size self image_dir corpus_id bucket_name :
  logs_only (fun l => negb (is_saving_line l))
    (process_images_by batch_size self image_dir corpus_id bucket_name).
Proof.
  unfold process_images_by.
  apply logs_only_bind; [now apply logs_only_logger | intros _].
  apply logs_only_bind.
  { apply logs_nothing. intros w. unfold os_walk. now destruct (fs w image_dir). }
  intros walked_. apply logs_only_bind.
  { apply logs_nothing. intros w. reflexivity. }
  intros starts. apply logs_only_for_. intros i. unfold process_batch.
  apply logs_only_bind.
  - apply logs_only_for_each. intros path.
    apply logs_only_bind; [now apply logs_nothing | intros today].
    apply logs_nothing. intros w. unfold upload_to_gcs.
    now destruct (gcs_replies w 0).
  - intros uris. apply logs_only_for_. intros uri.
    apply logs_only_bind; [| intros _; now apply logs_nothing].
    apply request_logs_no_saving.
Qed.

Lemma extract_id_logs_nothing (Q : level * message -> bool) (response : json) :
  logs_only Q (extract_id response).
Proof.
  apply logs_nothing. intros w.
  destruct (extract_id_cases response w) as (r & -> & _). reflexivity.
Qed.

(** X21: the log line "Saving results to spreadsheet..." is written exactly
    when the run has got past the deployment and the spreadsheet identifier
    is a non-empty string -- an empty [--spreadsheet-id] counts as none.  It
    then comes once, right before the line that announces success; a run
    that raises never writes it. *)
Theorem saving_line_when_id_given (args : Args) (w : World) :
  exists earlier,
    forallb (fun l => negb (is_saving_line l)) earlier = true
    /\ log (snd (main args w))
       = log w ++ earlier
         ++ match fst (main args w) with
            | Ok _ =>
                (if truthy (spreadsheet_id args) then [saving_line] else [])
                ++ [success_line]
            | Raise e => [error_line e]
            end.
Proof.
  set (Q := fun l => negb (is_saving_line l)).
  set (closing := (if truthy (spreadsheet_id args) then [saving_line] else [])
                  ++ [success_line]).
  assert (Hbody : closes_log_with Q closing (main_body args)).
  { rewrite main_body_stages. apply closes_log_bind.
    { apply logs_nothing. intros w0. unfold __init__, bind, get_access_token.
      destruct (gcloud w0) as [out | []]; reflexivity. }
    intros analyzer. unfold driver_stages.
    apply closes_log_bind; [now apply logs_only_logger | intros _].
    apply closes_log_bind; [apply request_logs_no_saving | intros corpus_response].
    apply closes_log_bind; [apply extract_id_logs_nothing | intros corpus_id].
    apply closes_log_bind; [now apply logs_only_logger | intros _].
    apply closes_log_bind; [apply images_log_no_saving | intros _].
    apply closes_log_bind; [now apply logs_only_logger | intros _].
    apply closes_log_bind; [apply request_logs_no_saving | intros index_response].
    apply closes_log_bind; [apply extract_id_logs_nothing | intros index_id].
    apply closes_log_bind; [now apply logs_only_logger | intros _].
    apply closes_log_bind; [now apply logs_nothing | intros today].
    apply closes_log_bind; [apply request_logs_no_saving | intros endpoint_response].
    apply closes_log_bind; [apply extract_id_logs_nothing | intros endpoint_id].
    apply closes_log_bind; [now apply logs_only_logger | intros _].
    apply closes_log_bind; [apply request_logs_no_saving | intros deployed].
    intros w0. exists []. split; [reflexivity |]. unfold closing.
    destruct (truthy (spreadsheet_id args)); unfold bind, logger, ret;
      cbn [fst snd log write_log app]; rewrite <- ?app_assoc; reflexivity. }
  destruct (Hbody w) as (earlier & HQ & Hlog). exists earlier. split; [exact HQ |].
  unfold main. destruct (main_body args w) as [[[] | e] w'] eqn:Hrun; simpl in *.
  - exact Hlog.
  - rewrite Hlog, app_nil_r. now rewrite <- app_assoc.
Qed.

(** ** Uploads before registrations, in the whole run *)

Lemma follow_uploads_app (a b : list event) :
  forall known,
    registrations_follow_uploads known (a ++ b)
    = registrations_follow_uploads known a
      && registrations_follow_uploads (known_after known a) b.
Proof.
  induction a as [|e a IH]; intros known; simpl; [reflexivity |].
  rewrite IH. now rewrite andb_assoc.
Qed.

Lemma follow_uploads_mono (evs : list event) :
  forall known known',
    (forall u, In u known -> In u known') ->
    registrations_follow_uploads known evs = true ->
    registrations_follow_uploads known' evs = true.
Proof.
  induction evs as [|e evs IH]; intros known known' Hincl; simpl; [reflexivity |].
  intros H. apply andb_true_iff in H. destruct H as [He Hrest].
  apply andb_true_iff. split.
  - destruct (registered_uri e) as [u |]; [| reflexivity].
    apply existsb_eqb_in. apply Hincl. now apply existsb_eqb_in.
  - eapply IH; [| exact Hrest].
    destruct (stored_uri e) as [u |]; [| exact Hincl].
    intros v [<- | Hv]; [now left | right; now apply Hincl].
Qed.

Lemma follow_uploads_no_registration (evs : list event) :
  forallb (fun e => match registered_uri e with None => true | Some _ => false end) evs
  = true ->
  forall known, registrations_follow_uploads known evs = true.
Proof.
  induction evs as [|e evs IH]; simpl; [reflexivity |].
  intros H known. apply andb_true_iff in H. destruct H as [He Hrest].
  destruct (registered_uri e); [discriminate |]. simpl. now apply IH.
Qed.

Lemma keeps_first_of_emits_only {A : Type} (c : M A) :
  emits_only (fun e => match registered_uri e with None => true | Some _ => false end) c ->
  keeps_uploads_first c.
Proof.
  intros Hc w. destruct (Hc w) as (evs & Htrace & Hall). exists evs.
  split; [exact Htrace | now apply follow_uploads_no_registration].
Qed.

Lemma keeps_first_bind {A B : Type} (c : M A) (k : A -> M B) :
  keeps_uploads_first c -> (forall a, keeps_uploads_first (k a)) ->
  keeps_uploads_first (bind c k).
Proof.
  intros Hc Hk w. destruct (Hc w) as (evs1 & Ht1 & H1). unfold bind.
  destruct (c w) as [[a | e] w1]; simpl in Ht1.
  - destruct (Hk a w1) as (evs2 & Ht2 & H2). exists (evs1 ++ evs2).
    split; [now rewrite Ht2, Ht1, app_assoc |].
    rewrite follow_uploads_app, H1. simpl.
    eapply follow_uploads_mono; [| exact H2]. intros u [].
  - now exists evs1.
Qed.

Lemma keeps_first_quiet {A : Type} (c : M A) :
  (forall w, trace (snd (c w)) = trace w) -> keeps_uploads_first c.
Proof. intros H w. exists []. now rewrite H, app_nil_r. Qed.

Lemma keeps_first_for_ {A : Type} (xs : list A) (body : A -> M unit) :
  (forall x, keeps_uploads_first (body x)) -> keeps_uploads_first (for_ xs body).
Proof.
  intros Hbody. induction xs as [|x xs IH]; simpl.
  - now apply keeps_first_quiet.
  - apply keeps_first_bind; [apply Hbody | intros _; exact IH].
Qed.

Lemma known_after_keeps (evs : list event) :
  forall known u, In u known -> In u (known_after known evs).
Proof.
  unfold known_after. induction evs as [|e evs IH]; intros known u Hin; simpl;
    [exact Hin |].
  apply IH. destruct (stored_uri e); [now right | exact Hin].
Qed.

Lemma known_after_stored bucket_name dated known u :
  In u (returned_uris bucket_name dated) ->
  In u (known_after known (stored_uploads bucket_name dated)).
Proof.
  revert known. induction dated as [|p dated IH]; intros known; [intros [] |].
  intros [<- | Hin].
  - apply (known_after_keeps (stored_uploads bucket_name dated)
             (upload_uri bucket_name (fst p) (snd p) :: known)).
    now left.
  - apply (IH (upload_uri bucket_name (fst p) (snd p) :: known) Hin).
Qed.

Lemma follow_registration_requests self corpus_id attempted known :
  (forall u, In u (map fst attempted) -> In u known) ->
  registrations_follow_uploads known (registration_requests self corpus_id attempted)
  = true.
Proof.
  unfold registration_requests. intros Hknown.
  induction attempted as [|[uri n] attempted IH]; simpl; [reflexivity |].
  rewrite follow_uploads_app. apply andb_true_iff. split.
  - assert (Hu : In uri known) by (apply Hknown; now left).
    clear IH Hknown. induction n as [|n IHn]; simpl; [reflexivity |].
    rewrite IHn, andb_true_r. now apply existsb_eqb_in.
  - assert (Hsame : known_after known (repeat (register_event self corpus_id uri) n)
                    = known).
    { clear. induction n as [|n IHn]; simpl; [reflexivity | exact IHn]. }
    rewrite Hsame. apply IH. intros u Hu. apply Hknown. now right.
Qed.

Lemma keeps_first_batch self corpus_id bucket_name batch :
  keeps_uploads_first (process_batch self corpus_id bucket_name batch).
Proof.
  intros w. unfold process_batch, bind.
  destruct (upload_batch_run bucket_name batch w)
    as (r1 & w1 & Hup & _ & [(dates & Hlen & -> & Htrace1)
                            | (dates & done & today & file & rest & e
                               & -> & Hlen & -> & Htrace1)]);
    rewrite Hup.
  - destruct (register_batch_run self corpus_id
                (returned_uris bucket_name (combine dates batch)) w1)
      as (r & w' & attempted & rest & Hreg & Htrace2 & Huris & _ & _).
    rewrite Hreg. cbn [snd].
    exists (stored_uploads bucket_name (combine dates batch)
            ++ registration_requests self corpus_id attempted).
    split; [now rewrite Htrace2, Htrace1, app_assoc |].
    rewrite follow_uploads_app. apply andb_true_iff. split.
    + apply follow_uploads_no_registration.
      clear. induction (combine dates batch) as [|p l IH]; simpl; auto.
    + apply follow_registration_requests. intros u Hu.
      apply known_after_stored. rewrite Huris. apply in_or_app. now left.
  - cbn [snd].
    exists (stored_uploads bucket_name (combine dates done)
            ++ [upload_event bucket_name today file false]).
    split; [exact Htrace1 |].
    apply follow_uploads_no_registration. rewrite forallb_app. simpl.
    rewrite andb_true_r.
    clear. induction (combine dates done) as [|p l IH]; simpl; auto.
Qed.

Lemma keeps_first_images batch_size self image_dir corpus_id bucket_name :
  keeps_uploads_first
    (process_images_by batch_size self image_dir corpus_id bucket_name).
Proof.
  unfold process_images_by.
  apply keeps_first_bind; [now apply keeps_first_quiet | intros _].
  apply keeps_first_bind.
  { apply keeps_first_quiet. intros w. unfold os_walk. now destruct (fs w image_dir). }
  intros walked_. apply keeps_first_bind; [now apply keeps_first_quiet | intros starts].
  apply keeps_first_for_. intros i. apply keeps_first_batch.
Qed.

Lemma keeps_first_request self method endpoint data c :
  registered_uri (request_event self method endpoint data) = None ->
  keeps_uploads_first (_make_request self method endpoint data c).
Proof.
  intros H. apply keeps_first_of_emits_only. apply emits_only_make_request.
  now rewrite H.
Qed.

(** X22: over a whole run, across batches and stages, no asset is
    registered before its file is stored: every registration request that
    [main] sends carries a URI that an upload stored earlier in the same run
    returned. *)
Theorem registrations_follow_stored_uploads (args : Args) (w : World) :
  exists evs,
    trace (snd (main args w)) = trace w ++ evs
    /\ registrations_follow_uploads [] evs = true.
Proof.
  assert (Hbody : keeps_uploads_first (main_body args)).
  { rewrite main_body_stages. apply keeps_first_bind.
    { apply keeps_first_of_emits_only. intros w0. unfold __init__, bind, get_access_token.
      exists [EvToken]. split; [| reflexivity].
      destruct (gcloud w0) as [out | []]; reflexivity. }
    intros analyzer. unfold driver_stages.
    apply keeps_first_bind; [now apply keeps_first_quiet | intros _].
    apply keeps_first_bind; [now apply keeps_first_request | intros corpus_response].
    apply keeps_first_bind;
      [apply keeps_first_quiet, extract_id_quiet | intros corpus_id].
    apply keeps_first_bind; [now apply keeps_first_quiet | intros _].
    apply keeps_first_bind; [apply keeps_first_images | intros _].
    apply keeps_first_bind; [now apply keeps_first_quiet | intros _].
    apply keeps_first_bind; [now apply keeps_first_request | intros index_response].
    apply keeps_first_bind;
      [apply keeps_first_quiet, extract_id_quiet | intros index_id].
    apply keeps_first_bind; [now apply keeps_first_quiet | intros _].
    apply keeps_first_bind; [now apply keeps_first_quiet | intros today].
    apply keeps_first_bind; [now apply keeps_first_request | intros endpoint_response].
    apply keeps_first_bind;
      [apply keeps_first_quiet, extract_id_quiet | intros endpoint_id].
    apply keeps_first_bind; [now apply keeps_first_quiet | intros _].
    apply keeps_first_bind; [now apply keeps_first_request | intros deployed].
    apply keeps_first_bind.
    { apply keeps_first_quiet. intros w0. now destruct (truthy (spreadsheet_id args)). }
    intros _. now apply keeps_first_quiet. }
  destruct (Hbody w) as (evs & Htrace & Hall). exists evs. split; [| exact Hall].
  unfold main. destruct (main_body args w) as [[[] | e] w']; exact Htrace.
Qed.

(** The checker sees a registration that no upload precedes. *)
Example registration_before_upload_is_seen :
  registrations_follow_uploads []
    [register_event sample_analyzer "c42" "gs://bkt/logos/20240307/a.png";
     EvUpload "bkt" "imgs/a.png" "logos/20240307/a.png" true] = false
  /\ registrations_follow_uploads []
       [EvUpload "bkt" "imgs/a.png" "logos/20240307/a.png" true;
        register_event sample_analyzer "c42" "gs://bkt/logos/20240307/a.png"] = true.
Proof. split; reflexivity. Qed.

(** ** The files a run uploads *)

Lemma upload_sources_app (a b : list event) :
  upload_sources (a ++ b) = upload_sources a ++ upload_sources b.
Proof. unfold upload_sources. apply flat_map_app. Qed.

Lemma upload_sources_stored bucket_name dated :
  upload_sources (stored_uploads bucket_name dated) = map snd dated.
Proof. induction dated as [|p dated IH]; simpl; [reflexivity | now rewrite IH]. Qed.

Lemma upload_sources_registrations self corpus_id attempted :
  upload_sources (registration_requests self corpus_id attempted) = [].
Proof.
  unfold registration_requests.
  induction attempted as [|[uri n] attempted IH]; simpl; [reflexivity |].
  rewrite upload_sources_app, IH, app_nil_r.
  induction n as [|n IHn]; simpl; [reflexivity | exact IHn].
Qed.

(** A batch uploads its files from the first on, all of them when it ends
    normally. *)
Lemma batch_sources self corpus_id bucket_name batch w :
  exists evs rest,
    trace (snd (process_batch self corpus_id bucket_name batch w)) = trace w ++ evs
    /\ batch = upload_sources evs ++ rest
    /\ (fst (process_batch self corpus_id bucket_name batch w) = Ok tt -> rest = []).
Proof.
  unfold process_batch, bind.
  destruct (upload_batch_run bucket_name batch w)
    as (r1 & w1 & Hup & _ & [(dates & Hlen & -> & Htrace1)
                            | (dates & done & today & file & rest & e
                               & -> & Hlen & -> & Htrace1)]);
    rewrite Hup.
  - destruct (register_batch_run self corpus_id
                (returned_uris bucket_name (combine dates batch)) w1)
      as (r & w' & attempted & rest & Hreg & Htrace2 & _).
    rewrite Hreg. cbn [fst snd].
    exists (stored_uploads bucket_name (combine dates batch)
            ++ registration_requests self corpus_id attempted), [].
    split; [now rewrite Htrace2, Htrace1, app_assoc |].
    split; [| reflexivity].
    rewrite upload_sources_app, upload_sources_stored, upload_sources_registrations.
    rewrite !app_nil_r. symmetry. now apply map_snd_combine.
  - cbn [fst snd].
    exists (stored_uploads bucket_name (combine dates done)
            ++ [upload_event bucket_name today file false]), rest.
    split; [exact Htrace1 |]. split; [| discriminate].
    rewrite upload_sources_app, upload_sources_stored, (map_snd_combine _ _ Hlen).
    simpl. now rewrite <- app_assoc.
Qed.

Lemma batches_sources self corpus_id bucket_name (batches : list (list string)) :
  forall w,
    exists evs rest,
      trace (snd (for_ batches (process_batch self corpus_id bucket_name) w))
      = trace w ++ evs
      /\ concat batches = upload_sources evs ++ rest
      /\ (fst (for_ batches (process_batch self corpus_id bucket_name) w) = Ok tt ->
          rest = []).
Proof.
  induction batches as [|batch batches IH]; intros w.
  - exists [], []. simpl. rewrite app_nil_r. now repeat split.
  - cbn [for_ concat]. unfold bind.
    destruct (batch_sources self corpus_id bucket_name batch w)
      as (evs1 & rest1 & Ht1 & Hb1 & Hok1).
    destruct (process_batch self corpus_id bucket_name batch w) as [[[] | e] w1];
      cbn [fst snd] in *.
    + rewrite (Hok1 eq_refl), app_nil_r in Hb1.
      destruct (IH w1) as (evs2 & rest2 & Ht2 & Hb2 & Hok2).
      exists (evs1 ++ evs2), rest2.
      split; [now rewrite Ht2, Ht1, app_assoc |].
      split; [| exact Hok2].
      now rewrite upload_sources_app, Hb2, Hb1, <- app_assoc.
    + exists evs1, (rest1 ++ concat batches).
      split; [exact Ht1 |]. split; [| discriminate].
      now rewrite Hb1, <- app_assoc.
Qed.

(** X23: in every world the image stage uploads the enumerated files from
    the first on, one upload per file, in the order of the enumeration: the
    files its uploads read are a prefix of the enumeration -- none twice,
    none skipped, none that was not enumerated -- and the whole enumeration
    when the stage ends normally. *)
Theorem uploads_follow_enumeration
    (batch_size : nat) self image_dir corpus_id bucket_name w :
  0 < batch_size ->
  exists evs rest,
    trace (snd (process_images_by batch_size self image_dir corpus_id bucket_name w))
    = trace w ++ evs
    /\ enumerate_images (walked w image_dir) = upload_sources evs ++ rest
    /\ (fst (process_images_by batch_size self image_dir corpus_id bucket_name w) = Ok tt ->
        rest = []).
Proof.
  intros HB.
  set (files := enumerate_images (walked w image_dir)).
  set (n := (length files + batch_size - 1) / batch_size).
  assert (Hconcat : concat (chunks batch_size files
                              (map (fun k => k * batch_size) (seq 0 n))) = files).
  { rewrite (map_ext (fun k => k * batch_size) (fun k => 0 + k * batch_size))
      by reflexivity.
    rewrite concat_chunks_from; [reflexivity | exact HB |].
    simpl. now apply ceil_div_covers. }
  assert (Hrun : process_images_by batch_size self image_dir corpus_id bucket_name w
                 = for_ (chunks batch_size files (map (fun k => k * batch_size) (seq 0 n)))
                        (process_batch self corpus_id bucket_name)
                        (write_log INFO (Msg "Starting image processing...") w)).
  { unfold process_images_by, bind, logger, os_walk, lift.
    replace (match fs (write_log INFO (Msg "Starting image processing...") w) image_dir with
             | Some d => (Ok (walk image_dir d), write_log INFO (Msg "Starting image processing...") w)
             | None => (Ok [], write_log INFO (Msg "Starting image processing...") w)
             end)
      with (Ok (walked w image_dir), write_log INFO (Msg "Starting image processing...") w)
      by (unfold walked; simpl; destruct (fs w image_dir); reflexivity).
    fold files. rewrite range_from_zero by exact HB. fold n.
    now rewrite (for_map (fun i => slice files i (i + batch_size))
                         (process_batch self corpus_id bucket_name)). }
  rewrite Hrun.
  destruct (batches_sources self corpus_id bucket_name
              (chunks batch_size files (map (fun k => k * batch_size) (seq 0 n)))
              (write_log INFO (Msg "Starting image processing...") w))
    as (evs & rest & Htrace & Hsrc & Hok).
  rewrite Hconcat in Hsrc. now exists evs, rest.
Qed.

Lemma uploads_follow_enumeration_witness :
  exists evs rest,
    trace (snd (process_images_by 100 sample_analyzer "imgs" "c42" "bkt"
                  (scripted [] (Some sample_tree))))
    = trace (scripted [] (Some sample_tree)) ++ evs
    /\ enumerate_images (walked (scripted [] (Some sample_tree)) "imgs")
       = upload_sources evs ++ rest
    /\ (fst (process_images_by 100 sample_analyzer "imgs" "c42" "bkt"
               (scripted [] (Some sample_tree))) = Ok tt ->
        rest = []).
Proof.
  apply uploads_follow_enumeration. lia.
Defined.
